(** * discord-downloader: the checkpointed archive and its resumable writer

    A shallow embedding of [src/main.py]: the skippable metadata frame at
    the head of the archive ([read_metadata], [overwrite_metadata],
    [initialize_metadata]), the batch append ([append_batch]), the
    transcript formatting and the fetch/commit loop of
    [DiscordDownloader.on_ready] together with [handle_signal].

    Python values are modelled as follows: [int] is [Z] (unbounded),
    [bytes] is a list of [Byte.byte], [str] is a list of Unicode code
    points, the file system is the finite map from paths to file contents
    together with the set of directories that exist, and an open file is a
    small state-and-exception monad over a file handle (contents,
    position, mode). *)

From Stdlib Require Import ZArith List Lia Bool.
From Stdlib Require Import Strings.Byte Strings.Ascii.
From stdpp Require Import gmap strings list fin_maps.

Local Open Scope Z_scope.

(** ** Exceptions and results *)

Inductive exn : Type :=
| ValueError (msg : string)
| struct_error
| FileNotFoundError
| NotADirectoryError
| IsADirectoryError
| UnsupportedOperation
| UnicodeEncodeError
| IndexError.

Inductive result (A : Type) : Type :=
| Ok (a : A)
| Raise (e : exn).
Arguments Ok {A} a.
Arguments Raise {A} e.

(** ** Bytes *)

Abbreviation bytes := (list byte).

#[global] Instance byte_eq_dec : EqDecision byte := Byte.byte_eq_dec.

Definition Z_of_byte (b : byte) : Z := Z.of_N (Byte.to_N b).

Definition byte_of_Z (z : Z) : byte :=
  match Byte.of_N (Z.to_N (z mod 256)) with
  | Some b => b
  | None => x00
  end.

(** ** The [struct] module: fixed-width unsigned integers

    A format such as ['<3Q'] is a byte order, an item width in bytes and
    an item count. *)

Inductive byteorder : Type := LittleEndian | BigEndian.

Record format : Type := Format {
  fmt_order : byteorder;
  fmt_width : nat;
  fmt_count : nat
}.

(** ['<I'], ['<3Q'] and ['>3Q']. *)
Definition fmt_lt_I : format := Format LittleEndian 4 1.
Definition fmt_lt_3Q : format := Format LittleEndian 8 3.
Definition fmt_gt_3Q : format := Format BigEndian 8 3.

Fixpoint le_bytes (width : nat) (v : Z) : bytes :=
  match width with
  | O => []
  | S w => byte_of_Z v :: le_bytes w (v / 256)
  end.

Fixpoint le_value (bs : bytes) : Z :=
  match bs with
  | [] => 0
  | b :: bs' => Z_of_byte b + 256 * le_value bs'
  end.

Definition int_bytes (o : byteorder) (width : nat) (v : Z) : bytes :=
  match o with
  | LittleEndian => le_bytes width v
  | BigEndian => rev (le_bytes width v)
  end.

Definition int_value (o : byteorder) (bs : bytes) : Z :=
  match o with
  | LittleEndian => le_value bs
  | BigEndian => le_value (rev bs)
  end.

Definition in_range (width : nat) (v : Z) : bool :=
  (0 <=? v) && (v <? 2 ^ (8 * Z.of_nat width)).

(** [struct.pack(fmt, *vals)]: [struct.error] on a wrong argument count or
    on a value outside the item's range. *)
Definition struct_pack (f : format) (vals : list Z) : result bytes :=
  if negb (length vals =? fmt_count f)%nat then Raise struct_error
  else if forallb (in_range (fmt_width f)) vals
       then Ok (concat (map (int_bytes (fmt_order f) (fmt_width f)) vals))
       else Raise struct_error.

Fixpoint chunks (width count : nat) (bs : bytes) : list bytes :=
  match count with
  | O => []
  | S c => take width bs :: chunks width c (drop width bs)
  end.

(** [struct.unpack(fmt, data)]: [struct.error] unless the buffer has
    exactly the size the format requires. *)
Definition struct_unpack (f : format) (buf : bytes) : result (list Z) :=
  if (length buf =? fmt_width f * fmt_count f)%nat
  then Ok (map (int_value (fmt_order f)) (chunks (fmt_width f) (fmt_count f) buf))
  else Raise struct_error.

(** ** Open files

    An open binary file: its contents, the stream position and the mode
    it was opened in.  Operations on it form a state monad whose state
    survives an exception, as the contents of a Python file object do. *)

Inductive mode : Type := RB | RPlusB | WB | AB.

Record file : Type := File {
  f_data : bytes;
  f_pos : nat;
  f_mode : mode
}.

Definition readable (m : mode) : bool :=
  match m with RB | RPlusB => true | WB | AB => false end.

Definition writable (m : mode) : bool :=
  match m with RB => false | RPlusB | WB | AB => true end.

Definition fileM (A : Type) : Type := file -> file * result A.

Definition fret {A} (a : A) : fileM A := fun f => (f, Ok a).

Definition fraise {A} (e : exn) : fileM A := fun f => (f, Raise e).

Definition fbind {A B} (m : fileM A) (k : A -> fileM B) : fileM B :=
  fun f => match m f with
           | (f', Ok a) => k a f'
           | (f', Raise e) => (f', Raise e)
           end.

Definition flift {A} (r : result A) : fileM A := fun f => (f, r).

Declare Scope file_scope.
Delimit Scope file_scope with file.
Notation "'do' x <- m ;; k" := (fbind m (fun x => k))
  (at level 10, x name, m at level 99, k at level 200) : file_scope.
Notation "'exec' m ;; k" := (fbind m (fun _ => k))
  (at level 10, m at level 99, k at level 200) : file_scope.

(** [file.read(n)]: up to [n] bytes from the current position. *)
Definition file_read (n : nat) : fileM bytes := fun f =>
  if readable (f_mode f)
  then let got := take n (drop (f_pos f) (f_data f)) in
       (File (f_data f) (f_pos f + length got) (f_mode f), Ok got)
  else (f, Raise UnsupportedOperation).

(** [file.seek(p)]. *)
Definition file_seek (p : nat) : fileM unit := fun f =>
  (File (f_data f) p (f_mode f), Ok tt).

(** Writing [buf] at position [p]: bytes under the buffer are replaced,
    a gap beyond the end of the file is zero-filled, the rest is kept. *)
Definition write_at (p : nat) (buf old : bytes) : bytes :=
  take p old ++ replicate (p - length old) x00 ++ buf ++ drop (p + length buf) old.

(** [file.write(buf)]: at the position, or at the end in append mode. *)
Definition file_write (buf : bytes) : fileM unit := fun f =>
  if writable (f_mode f)
  then match f_mode f with
       | AB => let d := f_data f ++ buf in (File d (length d) AB, Ok tt)
       | m => (File (write_at (f_pos f) buf (f_data f)) (f_pos f + length buf) m, Ok tt)
       end
  else (f, Raise UnsupportedOperation).

(** ** The file system

    The regular files, by path, and the directories that exist.  A path
    is the string it is spelled with, in the normal form [pathlib] keeps
    it in: components separated by single ['/'], and no [.] or [..]
    inside.  [fs !! path] is the contents of the regular file at [path]
    and [<[path := d]> fs] the file system in which the file at [path] has
    the contents [d], the directories being the same. *)

Record filesystem : Type := FileSystem {
  files : gmap string bytes;
  directories : gset string
}.

#[global] Instance filesystem_lookup : Lookup string bytes filesystem :=
  fun path fs => files fs !! path.

#[global] Instance filesystem_insert : Insert string bytes filesystem :=
  fun path d fs => FileSystem (<[path := d]> (files fs)) (directories fs).

#[global] Instance filesystem_empty : Empty filesystem := FileSystem ∅ ∅.

#[global] Instance filesystem_singleton : SingletonM string bytes filesystem :=
  fun path d => FileSystem {[ path := d ]} ∅.

Arguments filesystem_lookup : simpl never.
Arguments filesystem_insert : simpl never.

Fixpoint has_slash (path : string) : bool :=
  match path with
  | EmptyString => false
  | String c rest => Ascii.eqb c "/"%char || has_slash rest
  end.

Fixpoint ends_with_slash (path : string) : bool :=
  match path with
  | EmptyString => false
  | String c EmptyString => Ascii.eqb c "/"%char
  | String _ rest => ends_with_slash rest
  end.

(** The path without its trailing ['/']s. *)
Fixpoint strip_slashes (path : string) : string :=
  match path with
  | EmptyString => EmptyString
  | String c rest =>
      let r := strip_slashes rest in
      if Ascii.eqb c "/"%char && bool_decide (r = EmptyString)
      then EmptyString else String c r
  end.

(** The directory part of a path: what precedes its last ['/'], the empty
    string for a name in the working directory or in the root. *)
Fixpoint dirname (path : string) : string :=
  match path with
  | EmptyString => EmptyString
  | String c rest => if has_slash rest then String c (dirname rest) else EmptyString
  end.

(** The last component of a path: what follows its last ['/']. *)
Fixpoint basename (path : string) : string :=
  match path with
  | EmptyString => EmptyString
  | String c rest =>
      if has_slash rest then basename rest
      else if Ascii.eqb c "/"%char then rest else path
  end.

Fixpoint starts_with (prefix s : string) : bool :=
  match prefix, s with
  | EmptyString, _ => true
  | String a prefix', String b s' => Ascii.eqb a b && starts_with prefix' s'
  | String _ _, EmptyString => false
  end.

(** A directory exists when it is the working directory or the root, when
    it is one of [directories] or an ancestor of one, or when a file lies
    in it or below it. *)
Definition dir_exists (d : string) (fs : filesystem) : bool :=
  bool_decide (d = EmptyString)
  || existsb (fun e => bool_decide (e = d) || starts_with (d ++ "/")%string e)
       (elements (directories fs))
  || existsb (fun kv => starts_with (d ++ "/")%string (fst kv))
       (map_to_list (files fs)).

(** A regular file stands where [path] needs a directory. *)
Definition file_on_the_way (path : string) (fs : filesystem) : bool :=
  existsb (fun kv => starts_with (fst kv ++ "/")%string path)
    (map_to_list (files fs)).

(** The last component of [path] is a directory, not a file name. *)
Definition names_directory (path : string) (fs : filesystem) : bool :=
  ends_with_slash path
  || bool_decide (basename (strip_slashes path) = ".")
  || bool_decide (basename (strip_slashes path) = "..")
  || dir_exists (strip_slashes path) fs.

(** What stops the creation of a file at a [path] at which there is no
    regular file, if anything does: the components before the last one are
    resolved first, then the last one is looked at. *)
Definition create_error (path : string) (fs : filesystem) : option exn :=
  if bool_decide (path = EmptyString) then Some FileNotFoundError
  else if file_on_the_way (strip_slashes path) fs then Some NotADirectoryError
  else if negb (dir_exists (dirname (strip_slashes path)) fs) then Some FileNotFoundError
  else if names_directory path fs then Some IsADirectoryError
  else None.

(** State (the file system) and exceptions; the state survives a raise. *)
Definition IO (A : Type) : Type := filesystem -> filesystem * result A.

(** [open(path, mode)]: the reading modes need the file to exist; ['wb']
    truncates an existing file and ['ab'] opens it at its end; both create
    an absent file, and raise the error that stops the creation
    ([FileNotFoundError] when its directory does not exist). *)
Definition open (path : string) (m : mode) (fs : filesystem) : result file :=
  match m, fs !! path with
  | RB, Some d | RPlusB, Some d => Ok (File d 0 m)
  | RB, None | RPlusB, None => Raise FileNotFoundError
  | WB, Some _ => Ok (File [] 0 WB)
  | AB, Some d => Ok (File d (length d) AB)
  | WB, None | AB, None =>
      match create_error path fs with
      | None => Ok (File [] 0 m)
      | Some e => Raise e
      end
  end.

(** [with open(path, mode) as file: body].  The file's contents are in the
    file system when the block is left, normally or by an exception. *)
Definition with_open {A} (path : string) (m : mode) (body : fileM A) : IO A :=
  fun fs => match open path m fs with
            | Raise e => (fs, Raise e)
            | Ok f => let '(f', r) := body f in (<[path := f_data f']> fs, r)
            end.

(** [Path.exists()]. *)
Definition exists_ (path : string) (fs : filesystem) : bool :=
  bool_decide (is_Some (fs !! path)).

(** ** The metadata frame (src/main.py, lines 42-97) *)

(** 3 u64s: last read message, count of read messages, uncompressed size. *)
Definition METADATA_SIZE : Z := 3 * 8.
Definition MAGIC_ZSTD_HEADER : bytes := [x50; x2a; x4d; x18].

(** [struct.unpack(...)[0]]. *)
Definition item0 (r : result (list Z)) : result Z :=
  match r with
  | Ok (x :: _) => Ok x
  | Ok [] => Raise IndexError
  | Raise e => Raise e
  end.

Local Open Scope file_scope.

Definition read_metadata_body : fileM (list Z) :=
  do magic_header <- file_read 4 ;;
  if negb (bool_decide (magic_header = MAGIC_ZSTD_HEADER))
  then fraise (ValueError "Not a valid skippable frame format.")
  else
    do buf <- file_read 4 ;;
    do frame_length <- flift (item0 (struct_unpack fmt_lt_I buf)) ;;
    if negb (frame_length =? METADATA_SIZE)
    then fraise (ValueError "Invalid metadata size")
    else
      do frame_data <- file_read (Z.to_nat METADATA_SIZE) ;;
      flift (struct_unpack fmt_lt_3Q frame_data).

Definition read_metadata (file_path : string) : IO (list Z) :=
  with_open file_path RB read_metadata_body.

Definition overwrite_metadata_body (new_data : list Z) : fileM unit :=
  do magic_header <- file_read 4 ;;
  if negb (bool_decide (magic_header = MAGIC_ZSTD_HEADER))
  then fraise (ValueError "Not a valid skippable frame format.")
  else
    do buf <- file_read 4 ;;
    do frame_length <- flift (item0 (struct_unpack fmt_lt_I buf)) ;;
    if negb (frame_length =? METADATA_SIZE)
    then fraise (ValueError "Invalid metadata size")
    else
      exec file_seek 8 ;;
      do frame_data <- flift (struct_pack fmt_lt_3Q new_data) ;;
      file_write frame_data.

Definition overwrite_metadata (file_path : string) (new_data : list Z) : IO unit :=
  with_open file_path RPlusB (overwrite_metadata_body new_data).

Definition initialize_metadata_body : fileM unit :=
  exec file_write MAGIC_ZSTD_HEADER ;;
  do len <- flift (struct_pack fmt_lt_I [METADATA_SIZE]) ;;
  exec file_write len ;;
  do frame_data <- flift (struct_pack fmt_gt_3Q [0; 0; 0]) ;;
  file_write frame_data.

Definition initialize_metadata (file_path : string) : IO unit :=
  with_open file_path WB initialize_metadata_body.

Local Close Scope file_scope.

(** ** Text: [str], [len] and UTF-8

    A [str] is a sequence of Unicode code points (integers from 0 to
    0x10FFFF); [len] counts them.  [str.encode('utf-8')] writes one to
    four bytes per code point and raises [UnicodeEncodeError] on a
    surrogate. *)

Abbreviation str := (list Z).

Definition len {A} (l : list A) : Z := Z.of_nat (length l).

Definition is_surrogate (c : Z) : bool := (0xD800 <=? c) && (c <=? 0xDFFF).

Definition utf8_char (c : Z) : bytes :=
  if c <? 0x80 then [byte_of_Z c]
  else if c <? 0x800 then
    [byte_of_Z (0xC0 + c / 64); byte_of_Z (0x80 + c mod 64)]
  else if c <? 0x10000 then
    [byte_of_Z (0xE0 + c / 4096); byte_of_Z (0x80 + (c / 64) mod 64);
     byte_of_Z (0x80 + c mod 64)]
  else
    [byte_of_Z (0xF0 + c / 262144); byte_of_Z (0x80 + (c / 4096) mod 64);
     byte_of_Z (0x80 + (c / 64) mod 64); byte_of_Z (0x80 + c mod 64)].

Definition utf8 (s : str) : bytes := concat (map utf8_char s).

Definition encode_utf8 (s : str) : result bytes :=
  if existsb is_surrogate s then Raise UnicodeEncodeError else Ok (utf8 s).

(** ** Messages and the transcript (src/main.py, lines 169-173) *)

Record message : Type := Message {
  id : Z;
  author_display_name : str;
  content : str
}.

(** [f"\0<{message.author.display_name}>\0{message.content}\n"] *)
Definition format_line (m : message) : str :=
  [0; 60] ++ author_display_name m ++ [62; 0] ++ content m ++ [10].

(** The [for message in messages] loop over the accumulator
    [formatted_log]. *)
Fixpoint format_messages (formatted_log : str) (messages : list message) : str :=
  match messages with
  | [] => formatted_log
  | m :: rest =>
      if negb (len (content m) =? 0)
      then format_messages (formatted_log ++ format_line m) rest
      else format_messages formatted_log rest
  end.

(** ** The environment of a session

    What the code takes from outside: the zstd compressor (level 22), the
    channel's [history] (the answer to the [n]-th request, given [limit]
    and [after]), the archive's path and [args.batch]. *)

Record env : Type := Env {
  compress : bytes -> bytes;
  history : nat -> Z -> option Z -> list message;
  file_path : string;
  batch : Z
}.

(** ** [append_batch] (src/main.py, lines 100-113) *)

Local Open Scope file_scope.

Definition append_batch_body (E : env) (text : str) : fileM unit :=
  do text_bytes <- flift (encode_utf8 text) ;;
  let compressed_data := compress E text_bytes in
  file_write compressed_data.

Definition append_batch (E : env) (path : string) (text : str) : IO unit :=
  with_open path AB (append_batch_body E text).

Local Close Scope file_scope.

(** ** The session: [on_ready] from line 145 on, and [handle_signal]

    The session is a machine that executes one statement group per tick;
    a signal may be delivered between any two of them.  (The event loop
    runs signal callbacks only while the coroutine is suspended, so this
    allows more interleavings than can occur.) *)

Inductive pc : Type :=
| PInit       (* 145-148: create the archive when absent *)
| PLoad       (* 150-153: read the counters *)
| PFetch      (* 159-167: request the next batch *)
| PFormat     (* 169-178: transcript and new counters *)
| PEnter      (* 181: in_critical_section = True *)
| POverwrite  (* 183-184: overwrite_metadata *)
| PAppend     (* 185: append_batch *)
| PLeave      (* 187: in_critical_section = False *)
| PCheck      (* 188-195: deferred shutdown, short batch *)
| PFinish.    (* 197-199: close and exit *)

Inductive status : Type :=
| Running (p : pc)
| Exited (code : Z)
| Raised (e : exn).

Record state : Type := State {
  fs : filesystem;
  st : status;
  last_read_message : option Z;
  total_messages_read : Z;
  uncompressed_size : Z;
  messages : list message;
  formatted_log : str;
  in_critical_section : bool;
  shutdown_event : bool;
  requests : nat
}.

Definition goto (p : pc) (s : state) : state :=
  State (fs s) (Running p) (last_read_message s) (total_messages_read s)
        (uncompressed_size s) (messages s) (formatted_log s)
        (in_critical_section s) (shutdown_event s) (requests s).

Definition halt (t : status) (s : state) : state :=
  State (fs s) t (last_read_message s) (total_messages_read s)
        (uncompressed_size s) (messages s) (formatted_log s)
        (in_critical_section s) (shutdown_event s) (requests s).

Definition set_fs (fs' : filesystem) (s : state) : state :=
  State fs' (st s) (last_read_message s) (total_messages_read s)
        (uncompressed_size s) (messages s) (formatted_log s)
        (in_critical_section s) (shutdown_event s) (requests s).

Definition set_counters (l : option Z) (c b : Z) (s : state) : state :=
  State (fs s) (st s) l c b (messages s) (formatted_log s)
        (in_critical_section s) (shutdown_event s) (requests s).

Definition set_batch (ms : list message) (s : state) : state :=
  State (fs s) (st s) (last_read_message s) (total_messages_read s)
        (uncompressed_size s) ms (formatted_log s)
        (in_critical_section s) (shutdown_event s) (S (requests s)).

Definition set_log (t : str) (s : state) : state :=
  State (fs s) (st s) (last_read_message s) (total_messages_read s)
        (uncompressed_size s) (messages s) t
        (in_critical_section s) (shutdown_event s) (requests s).

Definition set_critical (b : bool) (s : state) : state :=
  State (fs s) (st s) (last_read_message s) (total_messages_read s)
        (uncompressed_size s) (messages s) (formatted_log s)
        b (shutdown_event s) (requests s).

Definition set_shutdown (s : state) : state :=
  State (fs s) (st s) (last_read_message s) (total_messages_read s)
        (uncompressed_size s) (messages s) (formatted_log s)
        (in_critical_section s) true (requests s).

(** [handle_signal] (lines 24-30). *)
Definition handle_signal (s : state) : state :=
  if in_critical_section s
  then set_shutdown s
  else halt (Exited 0) s.

(** Running an [IO] action of the session: its effect on the file system
    stays, and an exception ends the session. *)
Definition perform {A} (act : IO A) (s : state) (k : A -> state -> state) : state :=
  match act (fs s) with
  | (fs', Ok a) => k a (set_fs fs' s)
  | (fs', Raise e) => halt (Raised e) (set_fs fs' s)
  end.

(** The counters written at a commit (lines 183-184). *)
Definition new_data (s : state) : list Z :=
  [default 0 (last_read_message s); total_messages_read s; uncompressed_size s].

Definition exec_pc (E : env) (p : pc) (s : state) : state :=
  match p with
  | PInit =>
      if negb (exists_ (file_path E) (fs s))
      then perform (initialize_metadata (file_path E)) s (fun _ => goto PLoad)
      else goto PLoad s
  | PLoad =>
      perform (read_metadata (file_path E)) s (fun u64_values s' =>
        match u64_values with
        | [l; c; b] =>
            goto PFetch (set_counters (if l =? 0 then None else Some l) c b s')
        | _ => halt (Raised (ValueError "unpack")) s'
        end)
  | PFetch =>
      let after := last_read_message s in
      let ms := history E (requests s) (batch E) after in
      let s' := set_batch ms s in
      if len ms =? 0 then goto PFinish s' else goto PFormat s'
  | PFormat =>
      let log := format_messages [] (messages s) in
      match last (messages s) with
      | None => halt (Raised IndexError) (set_log log s)
      | Some m =>
          goto PEnter
            (set_counters (Some (id m))
               (total_messages_read s + len (messages s))
               (uncompressed_size s + len log)
               (set_log log s))
      end
  | PEnter => goto POverwrite (set_critical true s)
  | POverwrite =>
      perform (overwrite_metadata (file_path E) (new_data s)) s
        (fun _ => goto PAppend)
  | PAppend =>
      perform (append_batch E (file_path E) (formatted_log s)) s
        (fun _ => goto PLeave)
  | PLeave => goto PCheck (set_critical false s)
  | PCheck =>
      if shutdown_event s then halt (Exited 0) s
      else if len (messages s) <? batch E then goto PFinish s
      else goto PFetch s
  | PFinish => halt (Exited 0) s
  end.

Inductive event : Type := Tick | Signal.

Definition step (E : env) (s : state) (ev : event) : state :=
  match st s with
  | Running p =>
      match ev with
      | Tick => exec_pc E p s
      | Signal => handle_signal s
      end
  | _ => s
  end.

Definition run (E : env) (s : state) (evs : list event) : state :=
  fold_left (step E) evs s.

Definition ticks (n : nat) : list event := replicate n Tick.

(** The state in which line 145 is reached. *)
Definition initial (fs0 : filesystem) : state :=
  State fs0 (Running PInit) None 0 0 [] [] false false 0.

(** [on_ready] from line 145 on, started on the file system [fs0] and
    observed after the events [evs]. *)
Definition on_ready (E : env) (fs0 : filesystem) (evs : list event) : state :=
  run E (initial fs0) evs.

(** ** Vocabulary of the statements *)

(** An unsigned 64-bit value. *)
Definition u64 (v : Z) : Prop := 0 <= v < 2 ^ 64.

(** The first eight bytes of an archive: the magic constant and the
    little-endian length field 24. *)
Definition FRAME_HEADER : bytes := MAGIC_ZSTD_HEADER ++ [x18; x00; x00; x00].

(** The 24-byte payload holding three counters, little-endian. *)
Definition payload (a b c : Z) : bytes :=
  le_bytes 8 a ++ le_bytes 8 b ++ le_bytes 8 c.

(** The counters stored in the archive at [path], as [read_metadata]
    returns them. *)
Definition counters (path : string) (fs0 : filesystem) : result (list Z) :=
  snd (read_metadata path fs0).

Definition bad_magic : exn := ValueError "Not a valid skippable frame format.".
Definition bad_length : exn := ValueError "Invalid metadata size".

(** Which exception a file with a wrong head gets. *)
Definition rejection (d : bytes) (e : exn) : Prop :=
  (take 4 d <> MAGIC_ZSTD_HEADER /\ e = bad_magic)
  \/ (take 4 d = MAGIC_ZSTD_HEADER /\ (length d < 8)%nat /\ e = struct_error)
  \/ (take 4 d = MAGIC_ZSTD_HEADER /\ (8 <= length d)%nat /\ e = bad_length).

(** A string that [encode_utf8] accepts. *)
Definition encodable (s : str) : Prop := existsb is_surrogate s = false.

(** One transcript line as bytes: NUL '<' author '>' NUL body '\n'. *)
Definition line_bytes (m : message) : bytes :=
  [x00; x3c] ++ utf8 (author_display_name m) ++ [x3e; x00] ++ utf8 (content m) ++ [x0a].

(** The statements of the [while True] loop. *)
Definition in_loop (p : pc) : bool :=
  match p with
  | PInit | PLoad | PFinish => false
  | _ => true
  end.

(** The cursor a session starts from: a stored 0 means "from the start". *)
Definition cursor_of (l : Z) : option Z := if l =? 0 then None else Some l.

(** The states of a session that has nothing to commit. *)
Definition idle (path : string) (fs0 : filesystem) (l : Z) (s : state) : Prop :=
  fs s = fs0 /\
  match st s with
  | Running PInit | Running PLoad | Running PFinish => True
  | Running PFetch => last_read_message s = cursor_of l
  | Running _ => False
  | Exited c => c = 0
  | Raised _ => False
  end.

(** The statements executed with [in_critical_section] set. *)
Definition critical_pc (p : pc) : bool :=
  match p with
  | POverwrite | PAppend | PLeave => true
  | _ => false
  end.

Definition signals (k : nat) : list event := replicate k Signal.

(** [s], with [shutdown_event] set when [b] holds. *)
Definition mark (b : bool) (s : state) : state :=
  if b then set_shutdown s else s.

(** The flag is set exactly at the critical statements, and the process
    only ever exits with code 0 outside of them. *)
Definition flag_inv (s : state) : Prop :=
  match st s with
  | Running p => in_critical_section s = critical_pc p
  | Exited c => c = 0 /\ in_critical_section s = false
  | Raised _ => True
  end.

(** The precondition on the history source: every message returned is
    newer than the cursor ([None] standing for 0). *)
Definition fetch_after (E : env) : Prop :=
  forall n lim after m, m ∈ history E n lim after -> default 0 after < id m.

(** Where the archive holds counters, they have not decreased. *)
Definition counters_le (path : string) (fs1 fs2 : filesystem) : Prop :=
  forall l c b, counters path fs1 = Ok [l; c; b] ->
  exists l' c' b', counters path fs2 = Ok [l'; c'; b'] /\ l <= l' /\ c <= c'.

Definition counters_lt (path : string) (fs1 fs2 : filesystem) : Prop :=
  exists l c b l' c' b',
    counters path fs1 = Ok [l; c; b] /\ counters path fs2 = Ok [l'; c'; b'] /\
    l < l' /\ c < c'.

(** The file system after a sequence of sessions, each run against its
    own environment under its own schedule of events. *)
Definition sessions (fs0 : filesystem) (runs : list (env * list event)) : filesystem :=
  fold_left (fun fs1 r => fs (on_ready (fst r) fs1 (snd r))) runs fs0.

(** How the local counters of a session relate to the archive. *)
Definition sync_inv (E : env) (s : state) : Prop :=
  match st s with
  | Running PInit | Running PLoad => True
  | Running PFormat =>
      counters (file_path E) (fs s) = Ok (new_data s) /\
      messages s <> [] /\
      (forall m, last (messages s) = Some m -> default 0 (last_read_message s) < id m)
  | Running PEnter | Running POverwrite =>
      messages s <> [] /\
      exists l c b, counters (file_path E) (fs s) = Ok [l; c; b] /\
                    l < default 0 (last_read_message s) /\ c < total_messages_read s
  | Running _ => counters (file_path E) (fs s) = Ok (new_data s)
  | Exited _ | Raised _ => True
  end.

(** ** Sample data *)

(** A stand-in for the compressor: the input, stored after four marker
    bytes. *)
Definition sample_compress (b : bytes) : bytes := [x28; xb5; x2f; xfd] ++ b.

Definition sample_messages : list message :=
  [ Message 11 [97] [104; 105];
    Message 12 [98] [];
    Message 13 [99] [233] ].

Definition sample_history (n : nat) (limit : Z) (after : option Z) : list message :=
  filter (fun m => bool_decide (default 0 after < id m)) sample_messages.

Definition sample_env : env := Env sample_compress sample_history "a.zst" 100.

(** A channel with one message, "é" from "a", and a compressor that
    stores its input as it is. *)
Definition accent_message : message := Message 1 [97] [233].

Definition accent_env : env :=
  Env (fun b => b)
      (fun _ _ after => match after with None => [accent_message] | Some _ => [] end)
      "a.zst" 100.

(** An archive left by a completed session of [sample_env]. *)
Definition sample_archive : filesystem :=
  fs (run sample_env (initial ∅) (ticks 10)).

(** ** The start of [on_ready] (lines 131-143) and [get_file_path] *)

(** The command line: [--channel], [--path] and [--batch]. *)
Record arguments : Type := Args {
  args_channel : Z;
  args_path : option string;
  args_batch : Z
}.

(** [get_file_path] (lines 33-39).  A path is modelled by the string it is
    made from; [Path] normalisation is not modelled. *)
Definition get_file_path (args : arguments) (channel_name : string) : string :=
  match args_path args with
  | None => (channel_name ++ ".zst")%string
  | Some p => p
  end.

(** A channel either has a [name] or, as a private one, a recipient. *)
Inductive channel : Type :=
| NamedChannel (name : string)
| PrivateChannel (recipient_name : string).

(** What the session takes from the client library: channel lookup, the
    history of a channel and the compressor. *)
Record client : Type := Client {
  get_channel : Z -> option channel;
  channel_history : channel -> nat -> Z -> option Z -> list message;
  zstd_compress : bytes -> bytes
}.

(** Lines 137-140. *)
Definition channel_name (ch : channel) : string :=
  match ch with
  | NamedChannel name => name
  | PrivateChannel recipient_name => recipient_name
  end.

Definition session_env (cl : client) (args : arguments) (ch : channel) : env :=
  Env (zstd_compress cl) (channel_history cl ch)
      (get_file_path args (channel_name ch)) (args_batch args).

(** [on_ready] from line 131: a channel that is not found ends the
    process with code 1 before any file is touched. *)
Definition on_ready_from_login (cl : client) (args : arguments)
    (fs0 : filesystem) (evs : list event) : state :=
  match get_channel cl (args_channel args) with
  | None => halt (Exited 1) (initial fs0)
  | Some ch => on_ready (session_env cl args ch) fs0 evs
  end.

(** ** Vocabulary of the further properties *)

(** A valid archive stays one, keeps its batch region as a prefix of the
    new one and does not shrink. *)
Definition archive_extends (path : string) (fs1 fs2 : filesystem) : Prop :=
  forall d, fs1 !! path = Some d -> take 8 d = FRAME_HEADER -> (32 <= length d)%nat ->
  exists d', fs2 !! path = Some d' /\ take 8 d' = FRAME_HEADER /\
             drop 32 d `prefix_of` drop 32 d' /\ (length d <= length d')%nat.

(** Where the archive holds counters, the message count and the size
    have not decreased. *)
Definition tally_le (path : string) (fs1 fs2 : filesystem) : Prop :=
  forall l c b, counters path fs1 = Ok [l; c; b] ->
  exists l' c' b', counters path fs2 = Ok [l'; c'; b'] /\ c <= c' /\ b <= b'.

(** The local count and size against the archive, with no assumption on
    the history source. *)
Definition tally_inv (E : env) (s : state) : Prop :=
  match st s with
  | Running PInit | Running PLoad => True
  | Running PEnter | Running POverwrite =>
      exists l c b, counters (file_path E) (fs s) = Ok [l; c; b] /\
                    c <= total_messages_read s /\ b <= uncompressed_size s
  | Running _ => counters (file_path E) (fs s) = Ok (new_data s)
  | Exited _ | Raised _ => True
  end.

(** A pending shutdown request is only found inside a commit or at the
    check that follows it. *)
Definition pending_inv (s : state) : Prop :=
  match st s with
  | Running p => shutdown_event s = true -> critical_pc p = true \/ p = PCheck
  | _ => True
  end.

(** A text of code points below 0x80. *)
Definition ascii_only (t : str) : Prop := Forall (fun c => 0 <= c < 128) t.

(** A channel whose single message holds a lone surrogate. *)
Definition surrogate_env : env :=
  Env sample_compress
      (fun _ _ after => match after with
                        | None => [Message 5 [97] [104; 0xD800]]
                        | Some _ => []
                        end)
      "a.zst" 100.

(** A client with one named channel, 7, whose history is that of
    [sample_env]. *)
Definition sample_client : client :=
  Client (fun n => if n =? 7 then Some (NamedChannel "general") else None)
         (fun _ => sample_history) sample_compress.

(** * Properties *)

Ltac unfold_file_ops :=
  unfold fbind, file_read, file_seek, file_write, flift, fraise, fret in *.

(** ** The file system *)

Lemma fs_lookup_insert_eq (fs0 : filesystem) (path : string) (d : bytes) :
  <[path := d]> fs0 !! path = Some d.
Proof. apply (lookup_insert_eq (files fs0)). Qed.

Lemma fs_lookup_insert_ne (fs0 : filesystem) (path other : string) (d : bytes) :
  path <> other -> <[path := d]> fs0 !! other = fs0 !! other.
Proof. apply (lookup_insert_ne (files fs0)). Qed.

Lemma fs_insert_id (fs0 : filesystem) (path : string) (d : bytes) :
  fs0 !! path = Some d -> <[path := d]> fs0 = fs0.
Proof.
  destruct fs0 as [fl dirs]. unfold lookup, insert, filesystem_lookup, filesystem_insert.
  cbn [files directories]. intros H. f_equal. now apply insert_id.
Qed.

Lemma fs_insert_insert_eq (fs0 : filesystem) (path : string) (d1 d2 : bytes) :
  <[path := d1]> (<[path := d2]> fs0) = <[path := d1]> fs0.
Proof.
  unfold insert, filesystem_insert. cbn [files directories]. f_equal.
  apply insert_insert_eq.
Qed.


(** ** Bytes and [struct] *)

Lemma Z_of_byte_range (b : byte) : 0 <= Z_of_byte b < 256.
Proof.
  unfold Z_of_byte. pose proof (Byte.to_N_bounded b). lia.
Qed.

Lemma Z_of_byte_of_Z (z : Z) : Z_of_byte (byte_of_Z z) = z mod 256.
Proof.
  unfold Z_of_byte, byte_of_Z.
  assert (Hb : 0 <= z mod 256 < 256) by (apply Z.mod_pos_bound; lia).
  destruct (Byte.of_N (Z.to_N (z mod 256))) as [b|] eqn:Hof.
  - apply Byte.to_of_N in Hof. rewrite Hof. lia.
  - apply Byte.of_N_None_iff in Hof. lia.
Qed.

Lemma byte_of_Z_of_byte (b : byte) : byte_of_Z (Z_of_byte b) = b.
Proof.
  unfold byte_of_Z. pose proof (Z_of_byte_range b) as Hb.
  rewrite Z.mod_small by lia. unfold Z_of_byte.
  rewrite N2Z.id, Byte.of_to_N. reflexivity.
Qed.

Lemma Z_of_byte_inj (b1 b2 : byte) : Z_of_byte b1 = Z_of_byte b2 -> b1 = b2.
Proof.
  intros H. rewrite <- (byte_of_Z_of_byte b1), <- (byte_of_Z_of_byte b2).
  now rewrite H.
Qed.

Lemma length_le_bytes (n : nat) (v : Z) : length (le_bytes n v) = n.
Proof.
  revert v. induction n as [|n IH]; intros v; simpl; [reflexivity|].
  now rewrite IH.
Qed.

Lemma le_value_le_bytes (n : nat) (v : Z) :
  0 <= v < 2 ^ (8 * Z.of_nat n) -> le_value (le_bytes n v) = v.
Proof.
  revert v. induction n as [|n IH]; intros v Hv.
  - simpl in *. lia.
  - cbn [le_bytes le_value]. rewrite Z_of_byte_of_Z.
    replace (8 * Z.of_nat (S n)) with (8 + 8 * Z.of_nat n) in Hv by lia.
    rewrite Z.pow_add_r in Hv by lia. change (2 ^ 8) with 256 in Hv.
    rewrite IH.
    + pose proof (Z.div_mod v 256). lia.
    + split.
      * apply Z.div_pos; lia.
      * apply Z.div_lt_upper_bound; lia.
Qed.

Lemma in_range_u64 (v : Z) : in_range 8 v = true <-> u64 v.
Proof.
  unfold in_range, u64. change (8 * Z.of_nat 8) with 64.
  rewrite andb_true_iff, Z.leb_le, Z.ltb_lt. reflexivity.
Qed.

Lemma struct_pack_lt_3Q (a b c : Z) :
  u64 a -> u64 b -> u64 c ->
  struct_pack fmt_lt_3Q [a; b; c] = Ok (payload a b c).
Proof.
  intros Ha Hb Hc. unfold struct_pack. cbn [fmt_count fmt_width fmt_order fmt_lt_3Q].
  change (negb (length [a; b; c] =? 3)%nat) with false. cbn [forallb].
  apply in_range_u64 in Ha, Hb, Hc. rewrite Ha, Hb, Hc.
  cbn [andb map concat int_bytes]. unfold payload.
  now rewrite app_nil_r.
Qed.

Lemma struct_pack_lt_3Q_inv (vals : list Z) (buf : bytes) :
  struct_pack fmt_lt_3Q vals = Ok buf ->
  exists a b c, vals = [a; b; c] /\ u64 a /\ u64 b /\ u64 c /\ buf = payload a b c.
Proof.
  unfold struct_pack. cbn [fmt_count fmt_width fmt_order fmt_lt_3Q].
  destruct vals as [|a [|b [|c [|? ?]]]]; cbn [length Nat.eqb negb]; try discriminate.
  cbn [forallb].
  destruct (in_range 8 a) eqn:Ha; [|discriminate].
  destruct (in_range 8 b) eqn:Hb; [|discriminate].
  destruct (in_range 8 c) eqn:Hc; [|discriminate].
  cbn [andb map concat int_bytes]. intros [= <-].
  apply in_range_u64 in Ha, Hb, Hc.
  exists a, b, c. repeat split; try assumption; apply Ha || apply Hb || apply Hc.
Qed.

Lemma length_payload (a b c : Z) : length (payload a b c) = 24%nat.
Proof.
  unfold payload. rewrite !length_app, !length_le_bytes. reflexivity.
Qed.

Lemma struct_unpack_payload (a b c : Z) :
  u64 a -> u64 b -> u64 c ->
  struct_unpack fmt_lt_3Q (payload a b c) = Ok [a; b; c].
Proof.
  intros Ha Hb Hc. unfold struct_unpack.
  cbn [fmt_count fmt_width fmt_order fmt_lt_3Q].
  rewrite length_payload. change (24 =? 8 * 3)%nat with true. cbv iota.
  unfold payload. cbn [chunks].
  rewrite (take_app_length' (le_bytes 8 a)) by now rewrite length_le_bytes.
  rewrite (drop_app_length' (le_bytes 8 a)) by now rewrite length_le_bytes.
  rewrite (take_app_length' (le_bytes 8 b)) by now rewrite length_le_bytes.
  rewrite (drop_app_length' (le_bytes 8 b)) by now rewrite length_le_bytes.
  rewrite (take_ge (le_bytes 8 c)) by (rewrite length_le_bytes; lia).
  cbn [map int_value].
  rewrite !le_value_le_bytes by (unfold u64 in *; change (8 * Z.of_nat 8) with 64; lia).
  reflexivity.
Qed.

(** ** The frame codec on a file *)

Lemma header_split (d : bytes) :
  take 8 d = FRAME_HEADER -> d = FRAME_HEADER ++ drop 8 d.
Proof. intros H. rewrite <- H. symmetry. apply take_drop. Qed.

Lemma overwrite_body_header (r : bytes) (vals : list Z) :
  overwrite_metadata_body vals (File (FRAME_HEADER ++ r) 0 RPlusB) =
  match struct_pack fmt_lt_3Q vals with
  | Ok P => (File (FRAME_HEADER ++ P ++ drop (length P) r) (8 + length P) RPlusB, Ok tt)
  | Raise e => (File (FRAME_HEADER ++ r) 8 RPlusB, Raise e)
  end.
Proof.
  unfold overwrite_metadata_body.
  generalize (struct_pack fmt_lt_3Q vals). intros packed.
  cbn. rewrite bool_decide_eq_true_2 by reflexivity. cbn.
  rewrite take_0. cbn.
  change (24 + 256 * (0 + 256 * (0 + 256 * (0 + 256 * 0))) =? METADATA_SIZE) with true.
  cbn. destruct packed; reflexivity.
Qed.

Lemma overwrite_body_accepts (r : bytes) (a b c : Z) :
  u64 a -> u64 b -> u64 c ->
  overwrite_metadata_body [a; b; c] (File (FRAME_HEADER ++ r) 0 RPlusB) =
  (File (FRAME_HEADER ++ payload a b c ++ drop 24 r) 32 RPlusB, Ok tt).
Proof.
  intros Ha Hb Hc. rewrite overwrite_body_header.
  rewrite struct_pack_lt_3Q by assumption.
  now rewrite length_payload.
Qed.

Lemma read_body_accepts (r : bytes) :
  snd (read_metadata_body (File (FRAME_HEADER ++ r) 0 RB)) =
  struct_unpack fmt_lt_3Q (take 24 r).
Proof.
  unfold read_metadata_body.
  cbn. rewrite bool_decide_eq_true_2 by reflexivity. cbn.
  rewrite take_0. cbn.
  change (24 + 256 * (0 + 256 * (0 + 256 * (0 + 256 * 0))) =? METADATA_SIZE) with true.
  cbn. rewrite drop_0. reflexivity.
Qed.

Lemma read_body_data (f : file) :
  f_data (fst (read_metadata_body f)) = f_data f.
Proof.
  unfold read_metadata_body. unfold_file_ops.
  repeat (case_match; simplify_eq/=); reflexivity.
Qed.

Lemma overwrite_body_raise (vals : list Z) (f f' : file) (e : exn) :
  overwrite_metadata_body vals f = (f', Raise e) -> f_data f' = f_data f.
Proof.
  unfold overwrite_metadata_body. unfold_file_ops.
  intros H. repeat (case_match; simplify_eq/=); reflexivity.
Qed.

Lemma le32_is_24 (buf : bytes) :
  length buf = 4%nat -> le_value buf = 24 -> buf = [x18; x00; x00; x00].
Proof.
  destruct buf as [|b0 [|b1 [|b2 [|b3 [|? ?]]]]]; try discriminate.
  intros _. cbn [le_value].
  pose proof (Z_of_byte_range b0). pose proof (Z_of_byte_range b1).
  pose proof (Z_of_byte_range b2). pose proof (Z_of_byte_range b3).
  intros Hv.
  assert (Z_of_byte b0 = Z_of_byte x18) as ->%Z_of_byte_inj
    by (change (Z_of_byte x18) with 24; lia).
  assert (Z_of_byte b1 = Z_of_byte x00) as ->%Z_of_byte_inj
    by (change (Z_of_byte x00) with 0; lia).
  assert (Z_of_byte b2 = Z_of_byte x00) as ->%Z_of_byte_inj
    by (change (Z_of_byte x00) with 0; lia).
  assert (Z_of_byte b3 = Z_of_byte x00) as ->%Z_of_byte_inj
    by (change (Z_of_byte x00) with 0; lia).
  reflexivity.
Qed.

(** The two checks at the head of [read_metadata] and
    [overwrite_metadata], on a file read from position 0. *)
Lemma header_checks (d : bytes) :
  take 8 d <> FRAME_HEADER ->
  take 4 d <> MAGIC_ZSTD_HEADER
  \/ (take 4 d = MAGIC_ZSTD_HEADER /\ (length d < 8)%nat /\
      struct_unpack fmt_lt_I (take 4 (drop 4 d)) = Raise struct_error)
  \/ (take 4 d = MAGIC_ZSTD_HEADER /\ (8 <= length d)%nat /\
      exists v, struct_unpack fmt_lt_I (take 4 (drop 4 d)) = Ok [v] /\ v <> 24).
Proof.
  intros Hne.
  destruct (decide (take 4 d = MAGIC_ZSTD_HEADER)) as [Hm|Hm]; [right|now left].
  unfold struct_unpack. cbn [fmt_width fmt_count fmt_order fmt_lt_I].
  rewrite length_take, length_drop. 
  destruct (decide (length d < 8)%nat) as [Hlt|Hge].
  - left. repeat split; try assumption.
    destruct (Nat.eqb_spec (4 `min` (length d - 4)) (4 * 1)); [lia|reflexivity].
  - right. repeat split; try assumption; [lia|].
    destruct (Nat.eqb_spec (4 `min` (length d - 4)) (4 * 1)); [|lia].
    cbn [chunks map int_value]. rewrite take_take. change (4 `min` 4)%nat with 4%nat.
    eexists; split; [reflexivity|].
    intros Hv. apply Hne.
    apply le32_is_24 in Hv; [|rewrite length_take, length_drop; lia].
    change 8%nat with (4 + 4)%nat.
    rewrite <- (take_take_drop d 4 4), Hm, Hv. reflexivity.
Qed.

Lemma overwrite_body_rejects (vals : list Z) (d : bytes) :
  take 8 d <> FRAME_HEADER ->
  exists f' e, overwrite_metadata_body vals (File d 0 RPlusB) = (f', Raise e)
               /\ rejection d e.
Proof.
  intros Hne. unfold rejection, overwrite_metadata_body.
  destruct (header_checks d Hne) as [Hm|[(Hm & Hlen & Hu)|(Hm & Hlen & v & Hu & Hv)]].
  - unfold fbind at 1. cbn. rewrite drop_0.
    rewrite bool_decide_eq_false_2 by assumption. cbn.
    eexists _, _. split; [reflexivity|]. left. now split.
  - unfold fbind at 1. cbn. rewrite drop_0.
    rewrite bool_decide_eq_true_2 by assumption. cbn.
    rewrite Hm. cbn. rewrite Hu. cbn.
    eexists _, _. split; [reflexivity|]. right; left. now repeat split.
  - unfold fbind at 1. cbn. rewrite drop_0.
    rewrite bool_decide_eq_true_2 by assumption. cbn.
    rewrite Hm. cbn. rewrite Hu. cbn.
    destruct (Z.eqb_spec v METADATA_SIZE) as [->|_]; [now contradict Hv|]. cbn.
    eexists _, _. split; [reflexivity|]. right; right. now repeat split.
Qed.

Lemma read_body_rejects (d : bytes) :
  take 8 d <> FRAME_HEADER ->
  exists e, snd (read_metadata_body (File d 0 RB)) = Raise e /\ rejection d e.
Proof.
  intros Hne. unfold rejection, read_metadata_body.
  destruct (header_checks d Hne) as [Hm|[(Hm & Hlen & Hu)|(Hm & Hlen & v & Hu & Hv)]].
  - unfold fbind at 1. cbn. rewrite drop_0.
    rewrite bool_decide_eq_false_2 by assumption. cbn.
    eexists. split; [reflexivity|]. left. now split.
  - unfold fbind at 1. cbn. rewrite drop_0.
    rewrite bool_decide_eq_true_2 by assumption. cbn.
    rewrite Hm. cbn. rewrite Hu. cbn.
    eexists. split; [reflexivity|]. right; left. now repeat split.
  - unfold fbind at 1. cbn. rewrite drop_0.
    rewrite bool_decide_eq_true_2 by assumption. cbn.
    rewrite Hm. cbn. rewrite Hu. cbn.
    destruct (Z.eqb_spec v METADATA_SIZE) as [->|_]; [now contradict Hv|]. cbn.
    eexists. split; [reflexivity|]. right; right. now repeat split.
Qed.

(** ** The frame codec on the file system *)

Lemma overwrite_metadata_missing (fs0 : filesystem) (path : string) (vals : list Z) :
  fs0 !! path = None ->
  overwrite_metadata path vals fs0 = (fs0, Raise FileNotFoundError).
Proof.
  intros Hd. unfold overwrite_metadata, with_open, open. now rewrite Hd.
Qed.

Lemma overwrite_metadata_accepts (fs0 : filesystem) (path : string) (d : bytes)
    (a b c : Z) :
  fs0 !! path = Some d -> take 8 d = FRAME_HEADER -> u64 a -> u64 b -> u64 c ->
  overwrite_metadata path [a; b; c] fs0 =
  (<[path := FRAME_HEADER ++ payload a b c ++ drop 32 d]> fs0, Ok tt).
Proof.
  intros Hd Hh Ha Hb Hc. unfold overwrite_metadata, with_open, open.
  rewrite Hd. rewrite (header_split d Hh) at 1.
  rewrite overwrite_body_accepts by assumption. cbn [f_data].
  now rewrite drop_drop.
Qed.

Lemma overwrite_metadata_rejects (fs0 : filesystem) (path : string) (d : bytes)
    (vals : list Z) :
  fs0 !! path = Some d -> take 8 d <> FRAME_HEADER ->
  exists e, overwrite_metadata path vals fs0 = (fs0, Raise e) /\ rejection d e.
Proof.
  intros Hd Hh. unfold overwrite_metadata, with_open, open. rewrite Hd.
  destruct (overwrite_body_rejects vals d Hh) as (f' & e & Hbody & Hrej).
  rewrite Hbody. exists e. split; [|assumption].
  apply overwrite_body_raise in Hbody. cbn [f_data] in Hbody.
  rewrite Hbody, fs_insert_id by assumption. reflexivity.
Qed.

Lemma overwrite_metadata_raise (fs0 fs1 : filesystem) (path : string)
    (vals : list Z) (e : exn) :
  overwrite_metadata path vals fs0 = (fs1, Raise e) -> fs1 = fs0.
Proof.
  unfold overwrite_metadata, with_open, open.
  destruct (fs0 !! path) as [d|] eqn:Hd; [|now intros [= <- _]].
  destruct (overwrite_metadata_body vals (File d 0 RPlusB)) as [f' r] eqn:Hbody.
  intros [= <- ->].
  apply overwrite_body_raise in Hbody. cbn [f_data] in Hbody.
  rewrite Hbody. now apply fs_insert_id.
Qed.

Lemma overwrite_metadata_ok_inv (fs0 fs1 : filesystem) (path : string)
    (vals : list Z) (u : unit) :
  overwrite_metadata path vals fs0 = (fs1, Ok u) ->
  exists d a b c,
    fs0 !! path = Some d /\ take 8 d = FRAME_HEADER /\ vals = [a; b; c] /\
    u64 a /\ u64 b /\ u64 c /\
    fs1 = <[path := FRAME_HEADER ++ payload a b c ++ drop 32 d]> fs0.
Proof.
  intros Hok.
  destruct (fs0 !! path) as [d|] eqn:Hd;
    [|rewrite overwrite_metadata_missing in Hok by assumption; discriminate].
  destruct (decide (take 8 d = FRAME_HEADER)) as [Hh|Hh].
  - unfold overwrite_metadata, with_open, open in Hok. rewrite Hd in Hok.
    rewrite (header_split d Hh) in Hok at 1.
    rewrite overwrite_body_header in Hok.
    destruct (struct_pack fmt_lt_3Q vals) as [P|e] eqn:HP; [|discriminate].
    apply struct_pack_lt_3Q_inv in HP as (a & b & c & -> & Ha & Hb & Hc & ->).
    exists d, a, b, c. repeat split; try assumption; try apply Ha; try apply Hb; try apply Hc.
    rewrite length_payload in Hok. injection Hok as <-. cbn [f_data].
    now rewrite drop_drop.
  - destruct (overwrite_metadata_rejects fs0 path d vals Hd Hh) as (e & He & _).
    rewrite He in Hok. discriminate.
Qed.

Lemma read_metadata_fs (fs0 : filesystem) (path : string) :
  fst (read_metadata path fs0) = fs0.
Proof.
  unfold read_metadata, with_open, open.
  destruct (fs0 !! path) as [d|] eqn:Hd; [|reflexivity].
  pose proof (read_body_data (File d 0 RB)) as Hdata.
  destruct (read_metadata_body (File d 0 RB)) as [f' r]. cbn in *.
  rewrite Hdata. now apply fs_insert_id.
Qed.

Lemma read_metadata_counters (fs0 : filesystem) (path : string) :
  read_metadata path fs0 = (fs0, counters path fs0).
Proof.
  unfold counters. rewrite <- (read_metadata_fs fs0 path) at 2.
  now destruct (read_metadata path fs0).
Qed.

Lemma counters_missing (fs0 : filesystem) (path : string) :
  fs0 !! path = None -> counters path fs0 = Raise FileNotFoundError.
Proof.
  intros Hd. unfold counters, read_metadata, with_open, open. now rewrite Hd.
Qed.

Lemma counters_accepts (fs0 : filesystem) (path : string) (d : bytes) :
  fs0 !! path = Some d -> take 8 d = FRAME_HEADER ->
  counters path fs0 = struct_unpack fmt_lt_3Q (take 24 (drop 8 d)).
Proof.
  intros Hd Hh. unfold counters, read_metadata, with_open, open. rewrite Hd.
  pose proof (read_body_accepts (drop 8 d)) as Hbody.
  rewrite <- (header_split d Hh) in Hbody.
  destruct (read_metadata_body (File d 0 RB)) as [f' r]. exact Hbody.
Qed.

Lemma counters_rejects (fs0 : filesystem) (path : string) (d : bytes) :
  fs0 !! path = Some d -> take 8 d <> FRAME_HEADER ->
  exists e, counters path fs0 = Raise e /\ rejection d e.
Proof.
  intros Hd Hh. unfold counters, read_metadata, with_open, open. rewrite Hd.
  destruct (read_body_rejects d Hh) as (e & Hbody & Hrej).
  exists e. split; [|assumption].
  destruct (read_metadata_body (File d 0 RB)) as [f' r]. exact Hbody.
Qed.

Lemma counters_ok_inv (fs0 : filesystem) (path : string) (v : list Z) :
  counters path fs0 = Ok v ->
  exists d, fs0 !! path = Some d /\ take 8 d = FRAME_HEADER /\ (32 <= length d)%nat.
Proof.
  intros Hok.
  destruct (fs0 !! path) as [d|] eqn:Hd;
    [|rewrite counters_missing in Hok by assumption; discriminate].
  destruct (decide (take 8 d = FRAME_HEADER)) as [Hh|Hh].
  - exists d. repeat split; try assumption.
    rewrite (counters_accepts fs0 path d Hd Hh) in Hok.
    unfold struct_unpack in Hok. cbn [fmt_width fmt_count fmt_lt_3Q] in Hok.
    rewrite length_take, length_drop in Hok.
    destruct (Nat.eqb_spec (24 `min` (length d - 8)) (8 * 3)); [lia|discriminate].
  - destruct (counters_rejects fs0 path d Hd Hh) as (e & He & _).
    rewrite He in Hok. discriminate.
Qed.

Lemma counters_frame (fs0 : filesystem) (path : string) (a b c : Z) (rest : bytes) :
  fs0 !! path = Some (FRAME_HEADER ++ payload a b c ++ rest) ->
  u64 a -> u64 b -> u64 c ->
  counters path fs0 = Ok [a; b; c].
Proof.
  intros Hd Ha Hb Hc.
  rewrite (counters_accepts fs0 path _ Hd) by reflexivity.
  change (drop 8 (FRAME_HEADER ++ payload a b c ++ rest)) with (payload a b c ++ rest).
  rewrite take_app_length' by now rewrite length_payload.
  now apply struct_unpack_payload.
Qed.





(** C2: for all u64 counters (0 and 2^64 - 1 included) and every archive
    whose first eight bytes pass the validation, [overwrite_metadata]
    succeeds and a following [read_metadata] of the same file returns
    exactly the three values written. *)
Theorem overwrite_then_read (fs0 : filesystem) (path : string) (d : bytes)
    (a b c : Z) :
  fs0 !! path = Some d -> take 8 d = FRAME_HEADER ->
  u64 a -> u64 b -> u64 c ->
  exists fs1,
    overwrite_metadata path [a; b; c] fs0 = (fs1, Ok tt) /\
    read_metadata path fs1 = (fs1, Ok [a; b; c]).
Proof.
  intros Hd Hh Ha Hb Hc. eexists. split.
  - now apply (overwrite_metadata_accepts fs0 path d).
  - rewrite read_metadata_counters. f_equal.
    apply (counters_frame _ path a b c (drop 32 d)); try assumption.
    apply fs_lookup_insert_eq.
Qed.

Lemma overwrite_then_read_witness :
  exists fs1,
    overwrite_metadata "a.zst" [0; 2 ^ 64 - 1; 1] {[ "a.zst"%string := FRAME_HEADER ]}
      = (fs1, Ok tt) /\
    read_metadata "a.zst" fs1 = (fs1, Ok [0; 2 ^ 64 - 1; 1]).
Proof.
  apply (overwrite_then_read {[ "a.zst"%string := FRAME_HEADER ]} "a.zst" FRAME_HEADER).
  - reflexivity.
  - reflexivity.
  - unfold u64. lia.
  - unfold u64. lia.
  - unfold u64. lia.
Defined.






(** C9, as the code has it: [overwrite_metadata] fails, leaving the file
    system as it was, exactly when the file's first eight bytes are not
    the magic constant followed by the length field 24, and the failure is
    a [ValueError] whenever the magic is wrong or eight bytes are present.
    On success the 24 bytes at offsets 8 to 31 become the new payload, the
    magic, the length field and every byte from offset 32 on are kept, and
    the file's length becomes the larger of its old length and 32: a file
    of at least 32 bytes keeps its length, an accepted shorter one grows to
    32 bytes. *)
Theorem overwrite_metadata_frame (fs0 : filesystem) (path : string) (d : bytes)
    (a b c : Z) :
  fs0 !! path = Some d -> u64 a -> u64 b -> u64 c ->
  (take 8 d <> FRAME_HEADER ->
     exists e, overwrite_metadata path [a; b; c] fs0 = (fs0, Raise e) /\
               (take 4 d <> MAGIC_ZSTD_HEADER \/ (8 <= length d)%nat ->
                exists msg, e = ValueError msg))
  /\ (take 8 d = FRAME_HEADER ->
     exists d',
       overwrite_metadata path [a; b; c] fs0 = (<[path := d']> fs0, Ok tt) /\
       take 8 d' = take 8 d /\
       take 24 (drop 8 d') = payload a b c /\
       drop 32 d' = drop 32 d /\
       length d' = (length d `max` 32)%nat).
Proof.
  intros Hd Ha Hb Hc. split; intros Hh.
  - destruct (overwrite_metadata_rejects fs0 path d [a; b; c] Hd Hh) as (e & He & Hrej).
    exists e. split; [assumption|]. intros Hcase.
    destruct Hrej as [(_ & ->)|[(Hm & Hlen & _)|(_ & _ & ->)]].
    + now eexists.
    + destruct Hcase; [contradiction|lia].
    + now eexists.
  - exists (FRAME_HEADER ++ payload a b c ++ drop 32 d).
    split; [now apply overwrite_metadata_accepts|].
    assert (Hlen : (8 <= length d)%nat).
    { apply (f_equal length) in Hh. rewrite length_take in Hh.
      change (length FRAME_HEADER) with 8%nat in Hh. lia. }
    split; [now rewrite Hh|]. split; [|split].
    + change (drop 8 (FRAME_HEADER ++ payload a b c ++ drop 32 d))
        with (payload a b c ++ drop 32 d).
      apply take_app_length'. now rewrite length_payload.
    + rewrite (app_assoc FRAME_HEADER).
      apply drop_app_length'. rewrite length_app, length_payload. reflexivity.
    + rewrite !length_app, length_payload, length_drop.
      change (length FRAME_HEADER) with 8%nat. lia.
Qed.

Lemma overwrite_metadata_frame_witness :
  exists d',
    overwrite_metadata "a.zst" [1; 2; 3]
      {[ "a.zst"%string := FRAME_HEADER ++ replicate 24 x00 ++ [xaa; xbb] ]}
    = (<[ "a.zst"%string := d' ]> {[ "a.zst"%string := FRAME_HEADER ++ replicate 24 x00 ++ [xaa; xbb] ]}, Ok tt) /\
    take 8 d' = take 8 (FRAME_HEADER ++ replicate 24 x00 ++ [xaa; xbb]) /\
    take 24 (drop 8 d') = payload 1 2 3 /\
    drop 32 d' = drop 32 (FRAME_HEADER ++ replicate 24 x00 ++ [xaa; xbb]) /\
    length d' = (length (FRAME_HEADER ++ replicate 24 x00 ++ [xaa; xbb]) `max` 32)%nat.
Proof.
  refine (proj2 (overwrite_metadata_frame
    {[ "a.zst"%string := FRAME_HEADER ++ replicate 24 x00 ++ [xaa; xbb] ]}
    "a.zst" (FRAME_HEADER ++ replicate 24 x00 ++ [xaa; xbb]) 1 2 3 _ _ _ _) _).
  - reflexivity.
  - unfold u64. lia.
  - unfold u64. lia.
  - unfold u64. lia.
  - reflexivity.
Defined.

(** C9 as stated fails on a truncated file: an archive cut after its
    eight header bytes passes the validation, and the overwrite makes it
    32 bytes long. *)
Lemma overwrite_metadata_grows_truncated :
  let fs0 : filesystem := {[ "a.zst"%string := FRAME_HEADER ]} in
  exists fs1 d1,
    overwrite_metadata "a.zst" [1; 2; 3] fs0 = (fs1, Ok tt) /\
    fs1 !! "a.zst"%string = Some d1 /\
    length FRAME_HEADER = 8%nat /\ length d1 = 32%nat.
Proof.
  cbv zeta. eexists _, _. split; [|split; [|split]].
  - apply (overwrite_metadata_accepts _ "a.zst" FRAME_HEADER 1 2 3);
      [reflexivity|reflexivity|unfold u64; lia..].
  - apply fs_lookup_insert_eq.
  - reflexivity.
  - reflexivity.
Qed.

(** ** The transcript *)

Lemma len_zero {A} (l : list A) : (len l =? 0) = bool_decide (l = []).
Proof.
  unfold len. destruct l; cbn [length].
  - now rewrite bool_decide_eq_true_2.
  - rewrite bool_decide_eq_false_2 by discriminate. apply Z.eqb_neq. lia.
Qed.

Lemma format_messages_acc (acc : str) (msgs : list message) :
  format_messages acc msgs =
  acc ++ concat (map format_line (filter (fun m => content m <> []) msgs)).
Proof.
  revert acc. induction msgs as [|m msgs IH]; intros acc.
  - cbn. now rewrite app_nil_r.
  - cbn [format_messages]. rewrite len_zero.
    destruct (decide (content m = [])) as [He|Hne].
    + rewrite bool_decide_eq_true_2 by assumption. cbn [negb].
      rewrite filter_cons_False by (intros H; now apply H). apply IH.
    + rewrite bool_decide_eq_false_2 by assumption. cbn [negb].
      rewrite filter_cons_True by assumption. cbn [map concat].
      rewrite IH. now rewrite <- app_assoc.
Qed.

Lemma utf8_app (s t : str) : utf8 (s ++ t) = utf8 s ++ utf8 t.
Proof. unfold utf8. now rewrite map_app, concat_app. Qed.

Lemma utf8_format_line (m : message) : utf8 (format_line m) = line_bytes m.
Proof.
  unfold format_line, line_bytes. now rewrite !utf8_app.
Qed.

Lemma utf8_concat_lines (ms : list message) :
  utf8 (concat (map format_line ms)) = concat (map line_bytes ms).
Proof.
  induction ms as [|m ms IH]; [reflexivity|].
  cbn [map concat]. now rewrite utf8_app, utf8_format_line, IH.
Qed.

Lemma encodable_app (s t : str) : encodable (s ++ t) <-> encodable s /\ encodable t.
Proof. unfold encodable. rewrite existsb_app. apply orb_false_iff. Qed.

Lemma encodable_lines (ms : list message) :
  Forall (fun m => encodable (author_display_name m) /\ encodable (content m)) ms ->
  encodable (concat (map format_line ms)).
Proof.
  induction 1 as [|m ms [Ha Hc] _ IH]; [reflexivity|].
  cbn [map concat]. apply encodable_app. split; [|assumption].
  unfold format_line. rewrite !encodable_app. repeat split; try assumption; reflexivity.
Qed.

(** C10: the transcript of a batch is the concatenation, in fetch order,
    of one line per message with a non-empty body; encoded as UTF-8 each
    line is the byte 0x00, '<', the author's display name, '>', the byte
    0x00, the body and a line feed.  A message with an empty body adds
    nothing to the transcript, and the message counter grows by the
    number of all messages of the batch. *)
Theorem transcript_of_batch (E : env) (s : state) :
  let kept := filter (fun m => content m <> []) (messages s) in
  Forall (fun m => encodable (author_display_name m) /\ encodable (content m)) kept ->
  messages s <> [] ->
  let s' := exec_pc E PFormat s in
  formatted_log s' = concat (map format_line kept)
  /\ encode_utf8 (formatted_log s') = Ok (concat (map line_bytes kept))
  /\ total_messages_read s' = total_messages_read s + len (messages s)
  /\ st s' = Running PEnter.
Proof.
  intros kept Henc Hne s'.
  assert (Hlog : formatted_log s' = concat (map format_line kept)).
  { subst s'. unfold exec_pc. rewrite format_messages_acc. cbn [app].
    destruct (last (messages s)); reflexivity. }
  split; [assumption|]. split; [|split].
  - rewrite Hlog. unfold encode_utf8.
    rewrite (encodable_lines kept Henc). now rewrite utf8_concat_lines.
  - subst s'. unfold exec_pc.
    destruct (last (messages s)) eqn:Hl; [reflexivity|].
    apply last_None in Hl. contradiction.
  - subst s'. unfold exec_pc.
    destruct (last (messages s)) eqn:Hl; [reflexivity|].
    apply last_None in Hl. contradiction.
Qed.

Lemma transcript_of_batch_witness :
  let s := run sample_env (initial ∅) (ticks 3) in
  let s' := exec_pc sample_env PFormat s in
  formatted_log s' = [0; 60; 97; 62; 0; 104; 105; 10; 0; 60; 99; 62; 0; 233; 10]
  /\ total_messages_read s' = 3.
Proof.
  cbv zeta.
  pose proof (transcript_of_batch sample_env (run sample_env (initial ∅) (ticks 3)))
    as H.
  cbv zeta in H.
  assert (Henc : Forall (fun m => encodable (author_display_name m) /\ encodable (content m))
            (filter (fun m => content m <> [])
               (messages (run sample_env (initial ∅) (ticks 3))))).
  { vm_compute. repeat constructor. }
  assert (Hne : messages (run sample_env (initial ∅) (ticks 3)) <> []).
  { vm_compute. discriminate. }
  destruct (H Henc Hne) as (Hlog & _ & Htotal & _).
  split.
  - rewrite Hlog. vm_compute. reflexivity.
  - rewrite Htotal. vm_compute. reflexivity.
Defined.

(** ** [append_batch] on the file system *)

Lemma append_batch_existing (E : env) (fs0 : filesystem) (path : string)
    (d : bytes) (text : str) :
  fs0 !! path = Some d ->
  append_batch E path text fs0 =
  match encode_utf8 text with
  | Ok text_bytes => (<[path := d ++ compress E text_bytes]> fs0, Ok tt)
  | Raise e => (fs0, Raise e)
  end.
Proof.
  intros Hd. unfold append_batch, with_open, open. rewrite Hd.
  unfold append_batch_body, fbind, flift, file_write.
  destruct (encode_utf8 text); cbn; [reflexivity|].
  now rewrite fs_insert_id.
Qed.

Lemma counters_append (fs0 : filesystem) (path : string) (d extra : bytes)
    (v : list Z) :
  fs0 !! path = Some d -> counters path fs0 = Ok v ->
  counters path (<[path := d ++ extra]> fs0) = Ok v.
Proof.
  intros Hd Hv.
  destruct (counters_ok_inv fs0 path v Hv) as (d' & Hd' & Hh & Hlen).
  rewrite Hd in Hd'. injection Hd' as <-.
  rewrite (counters_accepts fs0 path d Hd Hh) in Hv.
  rewrite (counters_accepts _ path (d ++ extra)).
  - rewrite drop_app_le by lia. rewrite take_app_le; [assumption|].
    rewrite length_drop. lia.
  - apply fs_lookup_insert_eq.
  - rewrite take_app_le by lia. assumption.
Qed.

(** ** One iteration of the loop *)

Lemma last_nonempty {A} (l : list A) (x : A) : last l = Some x -> l <> [].
Proof. destruct l; [discriminate|discriminate]. Qed.

Lemma len_nonempty {A} (l : list A) : l <> [] -> (len l =? 0) = false.
Proof. intros H. rewrite len_zero. now apply bool_decide_eq_false_2. Qed.

Lemma run_app (E : env) (s : state) (evs1 evs2 : list event) :
  run E s (evs1 ++ evs2) = run E (run E s evs1) evs2.
Proof. unfold run. apply fold_left_app. Qed.

Lemma run_ticks_S (E : env) (s : state) (n : nat) :
  run E s (ticks (S n)) = step E (run E s (ticks n)) Tick.
Proof.
  unfold ticks. rewrite replicate_S_end, run_app. reflexivity.
Qed.

Lemma step_tick (E : env) (s : state) (p : pc) :
  st s = Running p -> step E s Tick = exec_pc E p s.
Proof. intros H. unfold step. now rewrite H. Qed.

Lemma step_stopped (E : env) (s : state) (ev : event) :
  (forall p, st s <> Running p) -> step E s ev = s.
Proof.
  intros H. unfold step. destruct (st s) as [p| |]; [now destruct (H p)|reflexivity..].
Qed.

(** C1: for a non-empty fetched batch the session performs one commit.
    Nothing is written before it; the metadata frame is first overwritten
    with the id of the batch's last message, the old count plus the number
    of messages of the batch and the old size plus the length of the
    transcript; only then is the compressed chunk appended at the end of
    the file; nothing else is written until the next fetch. *)
Theorem commit_of_batch (E : env) (s : state) (d : bytes) (ms : list message)
    (m : message) :
  st s = Running PFetch ->
  history E (requests s) (batch E) (last_read_message s) = ms ->
  last ms = Some m ->
  fs s !! file_path E = Some d -> take 8 d = FRAME_HEADER ->
  let log := format_messages [] ms in
  let l' := id m in
  let c' := total_messages_read s + len ms in
  let b' := uncompressed_size s + len log in
  u64 l' -> u64 c' -> u64 b' -> encodable log ->
  let before := run E s (ticks 3) in
  let mid := run E s (ticks 4) in
  let after := run E s (ticks 5) in
  (forall n, (n <= 3)%nat -> fs (run E s (ticks n)) = fs s)
  /\ st before = Running POverwrite
  /\ new_data before = [l'; c'; b']
  /\ overwrite_metadata (file_path E) [l'; c'; b'] (fs s) = (fs mid, Ok tt)
  /\ st mid = Running PAppend
  /\ fs mid !! file_path E = Some (FRAME_HEADER ++ payload l' c' b' ++ drop 32 d)
  /\ append_batch E (file_path E) log (fs mid) = (fs after, Ok tt)
  /\ st after = Running PLeave
  /\ fs after !! file_path E
     = Some (FRAME_HEADER ++ payload l' c' b' ++ drop 32 d ++ compress E (utf8 log))
  /\ (forall n, (5 <= n <= 7)%nat -> fs (run E s (ticks n)) = fs after).
Proof.
  intros Hst Hms Hlast Hd Hh log l' c' b' Hl Hc Hb Henc before mid after.
  destruct s as [fs0 st0 l c b ms0 log0 cs sh n]. cbn in Hst, Hms, Hd, c', b'.
  subst st0.
  pose proof (len_nonempty ms (last_nonempty ms m Hlast)) as Hlen.
  set (fs1 := <[file_path E := FRAME_HEADER ++ payload l' c' b' ++ drop 32 d]> fs0).
  set (fs2 := <[file_path E := (FRAME_HEADER ++ payload l' c' b' ++ drop 32 d)
                               ++ compress E (utf8 log)]> fs1).
  assert (H1 : run E (State fs0 (Running PFetch) l c b ms0 log0 cs sh n) (ticks 1)
               = State fs0 (Running PFormat) l c b ms log0 cs sh (S n)).
  { cbn. rewrite Hms, Hlen. reflexivity. }
  assert (H2 : run E (State fs0 (Running PFetch) l c b ms0 log0 cs sh n) (ticks 2)
               = State fs0 (Running PEnter) (Some l') c' b' ms log cs sh (S n)).
  { rewrite run_ticks_S, H1. cbn. rewrite Hlast. reflexivity. }
  assert (H3 : run E (State fs0 (Running PFetch) l c b ms0 log0 cs sh n) (ticks 3)
               = State fs0 (Running POverwrite) (Some l') c' b' ms log true sh (S n)).
  { rewrite run_ticks_S, H2. reflexivity. }
  assert (Hov : overwrite_metadata (file_path E) [l'; c'; b'] fs0 = (fs1, Ok tt)).
  { now apply overwrite_metadata_accepts. }
  assert (H4 : run E (State fs0 (Running PFetch) l c b ms0 log0 cs sh n) (ticks 4)
               = State fs1 (Running PAppend) (Some l') c' b' ms log true sh (S n)).
  { rewrite run_ticks_S, H3. cbn. unfold perform, new_data. cbn. rewrite Hov. reflexivity. }
  assert (Hap : append_batch E (file_path E) log fs1 = (fs2, Ok tt)).
  { rewrite (append_batch_existing E fs1 (file_path E)
               (FRAME_HEADER ++ payload l' c' b' ++ drop 32 d))
      by apply fs_lookup_insert_eq.
    unfold encode_utf8. rewrite Henc. reflexivity. }
  assert (H5 : run E (State fs0 (Running PFetch) l c b ms0 log0 cs sh n) (ticks 5)
               = State fs2 (Running PLeave) (Some l') c' b' ms log true sh (S n)).
  { rewrite run_ticks_S, H4. cbn. unfold perform. cbn. rewrite Hap. reflexivity. }
  assert (H6 : run E (State fs0 (Running PFetch) l c b ms0 log0 cs sh n) (ticks 6)
               = State fs2 (Running PCheck) (Some l') c' b' ms log false sh (S n)).
  { rewrite run_ticks_S, H5. reflexivity. }
  assert (H7 : fs (run E (State fs0 (Running PFetch) l c b ms0 log0 cs sh n) (ticks 7))
               = fs2).
  { rewrite run_ticks_S, H6. cbn. destruct sh; [reflexivity|].
    destruct (len ms <? batch E); reflexivity. }
  subst before mid after. rewrite H3, H4, H5. cbn [fs st].
  split.
  { intros k Hk. destruct k as [|[|[|[|k]]]]; [reflexivity| | | |lia].
    - now rewrite H1.
    - now rewrite H2.
    - now rewrite H3. }
  split; [reflexivity|]. split; [reflexivity|]. split; [exact Hov|].
  split; [reflexivity|]. split; [apply fs_lookup_insert_eq|].
  split; [exact Hap|]. split; [reflexivity|].
  split.
  { subst fs2. rewrite fs_lookup_insert_eq. now rewrite <- !app_assoc. }
  intros k Hk.
  destruct k as [|[|[|[|[|[|[|[|k]]]]]]]]; try lia.
  - now rewrite H5.
  - now rewrite H6.
  - exact H7.
Qed.

Lemma commit_of_batch_witness :
  let s := run sample_env (initial ∅) (ticks 2) in
  fs (run sample_env s (ticks 5)) !! "a.zst"%string
  = Some (FRAME_HEADER ++ payload 13 3 15 ++ []
          ++ sample_compress (utf8 [0; 60; 97; 62; 0; 104; 105; 10; 0; 60; 99; 62; 0; 233; 10])).
Proof.
  cbv zeta.
  refine (proj1 (proj2 (proj2 (proj2 (proj2 (proj2 (proj2 (proj2 (proj2
    (commit_of_batch sample_env (run sample_env (initial ∅) (ticks 2))
       (FRAME_HEADER ++ payload 0 0 0) sample_messages (Message 13 [99] [233])
       _ _ _ _ _ _ _ _ _)))))))))).
  - reflexivity.
  - reflexivity.
  - reflexivity.
  - reflexivity.
  - reflexivity.
  - unfold u64. cbn. lia.
  - unfold u64. vm_compute. split; [intros H; discriminate H|reflexivity].
  - unfold u64. vm_compute. split; [intros H; discriminate H|reflexivity].
  - reflexivity.
Defined.

(** ** The size counter *)

(** What the code adds to [uncompressed_size]: the number of code points
    of the transcript. *)
Lemma uncompressed_size_step (E : env) (s : state) :
  messages s <> [] ->
  uncompressed_size (exec_pc E PFormat s)
  = uncompressed_size s + len (format_messages [] (messages s)).
Proof.
  intros Hne. unfold exec_pc.
  destruct (last (messages s)) eqn:Hl; [reflexivity|].
  apply last_None in Hl. contradiction.
Qed.

(** C6 fails on the code at a batch with a non-ASCII character: for the
    single message "é" the transcript has 7 code points and its UTF-8
    encoding, which is what is compressed and appended, has 8 bytes; the
    counter written is 7 while the batch region holds 8 bytes. *)
Theorem uncompressed_size_counts_code_points :
  let s := run accent_env (initial ∅) (ticks 10) in
  st s = Exited 0
  /\ counters "a.zst" (fs s) = Ok [1; 1; 7]
  /\ encode_utf8 (formatted_log s) = Ok [x00; x3c; x61; x3e; x00; xc3; xa9; x0a]
  /\ fs s !! "a.zst"%string
     = Some (FRAME_HEADER ++ payload 1 1 7 ++ [x00; x3c; x61; x3e; x00; xc3; xa9; x0a])
  /\ uncompressed_size s = 7
  /\ len [x00; x3c; x61; x3e; x00; xc3; xa9; x0a] = 8.
Proof.
  cbv zeta. repeat split; vm_compute; reflexivity.
Qed.

(** ** Leaving the loop *)

Lemma st_perform {A} (act : IO A) (s : state) (p : pc) :
  st (perform act s (fun _ => goto p)) = Running p
  \/ exists e, st (perform act s (fun _ => goto p)) = Raised e.
Proof.
  unfold perform. destruct (act (fs s)) as [fs' [a|e]]; cbn; eauto.
Qed.

Lemma loop_exit_conditions (E : env) (s : state) (p : pc) :
  st s = Running p -> in_loop p = true ->
  (st (step E s Tick) = Running PFinish \/ st (step E s Tick) = Exited 0)
  <-> (p = PFetch /\ history E (requests s) (batch E) (last_read_message s) = [])
      \/ (p = PCheck /\ shutdown_event s = true)
      \/ (p = PCheck /\ shutdown_event s = false /\ len (messages s) < batch E).
Proof.
  intros Hst Hloop. rewrite (step_tick E s p Hst).
  destruct p; try discriminate Hloop; cbn [exec_pc].
  - (* PFetch *)
    rewrite len_zero.
    destruct (decide (history E (requests s) (batch E) (last_read_message s) = []))
      as [He|Hne].
    + rewrite bool_decide_eq_true_2 by assumption. cbn. split; [|now left].
      intros _. left. now split.
    + rewrite bool_decide_eq_false_2 by assumption. cbn.
      split; [intros [H|H]; discriminate H|].
      intros [(_ & H)|[(H & _)|(H & _)]]; [contradiction|discriminate H..].
  - (* PFormat *)
    split.
    + destruct (last (messages s)); cbn; intros [H|H]; discriminate H.
    + intros [(H & _)|[(H & _)|(H & _)]]; discriminate H.
  - (* PEnter *)
    split; [cbn; intros [H|H]; discriminate H|].
    intros [(H & _)|[(H & _)|(H & _)]]; discriminate H.
  - (* POverwrite *)
    split.
    + destruct (st_perform (overwrite_metadata (file_path E) (new_data s)) s PAppend)
        as [H|[e H]]; rewrite H; intros [H'|H']; discriminate H'.
    + intros [(H & _)|[(H & _)|(H & _)]]; discriminate H.
  - (* PAppend *)
    split.
    + destruct (st_perform (append_batch E (file_path E) (formatted_log s)) s PLeave)
        as [H|[e H]]; rewrite H; intros [H'|H']; discriminate H'.
    + intros [(H & _)|[(H & _)|(H & _)]]; discriminate H.
  - (* PLeave *)
    split; [cbn; intros [H|H]; discriminate H|].
    intros [(H & _)|[(H & _)|(H & _)]]; discriminate H.
  - (* PCheck *)
    destruct (shutdown_event s) eqn:Hsh.
    + cbn. split; [|now right]. intros _. right; left. now split.
    + destruct (Z.ltb_spec (len (messages s)) (batch E)) as [Hlt|Hge]; cbn.
      * split; [|now left]. intros _. right; right. now repeat split.
      * split; [intros [H|H]; discriminate H|].
        intros [(H & _)|[(_ & H)|(_ & _ & H)]]; [discriminate H|discriminate H|lia].
Qed.

Lemma exists_lookup (fs0 : filesystem) (path : string) (d : bytes) :
  fs0 !! path = Some d -> exists_ path fs0 = true.
Proof.
  intros H. unfold exists_. apply bool_decide_eq_true_2. now exists d.
Qed.

Lemma idle_step (E : env) (fs0 : filesystem) (l c b : Z) (s : state) (ev : event) :
  counters (file_path E) fs0 = Ok [l; c; b] ->
  (forall n, history E n (batch E) (cursor_of l) = []) ->
  idle (file_path E) fs0 l s -> idle (file_path E) fs0 l (step E s ev).
Proof.
  intros Hc Hh [Hfs Hst]. unfold step.
  destruct (st s) as [p|code|e] eqn:Hp; [|split; [assumption|now rewrite Hp]|contradiction].
  destruct ev.
  - destruct p; try contradiction; cbn [exec_pc].
    + (* PInit *)
      destruct (counters_ok_inv _ _ _ Hc) as (d & Hd & _).
      rewrite Hfs, (exists_lookup fs0 (file_path E) d Hd). cbn.
      split; [assumption|exact I].
    + (* PLoad *)
      unfold perform. rewrite Hfs, read_metadata_counters, Hc. cbn.
      split; reflexivity.
    + (* PFetch *)
      rewrite Hst, Hh. cbn. split; [assumption|exact I].
    + (* PFinish *)
      cbn. split; [assumption|reflexivity].
  - unfold handle_signal. destruct (in_critical_section s); cbn.
    + split; [assumption|]. unfold set_shutdown. cbn. now rewrite Hp.
    + split; [assumption|reflexivity].
Qed.

Lemma idle_run (E : env) (fs0 : filesystem) (l c b : Z) (evs : list event) :
  counters (file_path E) fs0 = Ok [l; c; b] ->
  (forall n, history E n (batch E) (cursor_of l) = []) ->
  idle (file_path E) fs0 l (run E (initial fs0) evs).
Proof.
  intros Hc Hh. induction evs as [|ev evs IH] using rev_ind.
  - split; [reflexivity|exact I].
  - rewrite run_app. now apply (idle_step E fs0 l c b).
Qed.

(** C4: a tick in the loop leaves the loop exactly when the fetch
    returned no message, when the shutdown flag is found set after a
    commit, or when the committed batch had fewer than [batch] messages
    (a fatal exception and the handler's own exit end the process, not
    the loop).  A session started on an archive whose counters read
    (l, c, b), with nothing upstream after the cursor, never reaches the
    commit statements, leaves the file system as it found it under every
    schedule of signals, and exits with code 0. *)
Theorem fetch_loop_exits (E : env) (s : state) (p : pc) (fs0 : filesystem)
    (l c b : Z) (evs : list event) :
  (st s = Running p -> in_loop p = true ->
   (st (step E s Tick) = Running PFinish \/ st (step E s Tick) = Exited 0)
   <-> (p = PFetch /\ history E (requests s) (batch E) (last_read_message s) = [])
       \/ (p = PCheck /\ shutdown_event s = true)
       \/ (p = PCheck /\ shutdown_event s = false /\ len (messages s) < batch E))
  /\ (counters (file_path E) fs0 = Ok [l; c; b] ->
      (forall n, history E n (batch E) (cursor_of l) = []) ->
      fs (on_ready E fs0 evs) = fs0
      /\ (forall q, st (on_ready E fs0 evs) = Running q -> in_loop q = true -> q = PFetch)
      /\ st (on_ready E fs0 (ticks 4)) = Exited 0
      /\ fs (on_ready E fs0 (ticks 4)) = fs0).
Proof.
  unfold on_ready. split; [apply loop_exit_conditions|].
  intros Hc Hh.
  pose proof (idle_run E fs0 l c b evs Hc Hh) as [Hfs Hst].
  split; [assumption|]. split.
  - intros q Hq Hloop. rewrite Hq in Hst.
    destruct q; try discriminate Hloop; try contradiction. reflexivity.
  - destruct (counters_ok_inv _ _ _ Hc) as (d & Hd & _).
    assert (H4 : run E (initial fs0) (ticks 4)
                 = State fs0 (Exited 0) (cursor_of l) c b [] [] false false 1).
    { cbn. rewrite (exists_lookup fs0 (file_path E) d Hd). cbn.
      unfold perform. cbn. rewrite read_metadata_counters, Hc. cbn.
      rewrite Hh. reflexivity. }
    rewrite H4. split; reflexivity.
Qed.

Lemma fetch_loop_exits_witness :
  (st (step sample_env (run sample_env (initial sample_archive) (ticks 2)) Tick)
     = Running PFinish
   \/ st (step sample_env (run sample_env (initial sample_archive) (ticks 2)) Tick)
     = Exited 0)
  /\ fs (on_ready sample_env sample_archive [Tick; Tick; Signal; Tick]) = sample_archive.
Proof.
  pose proof (fetch_loop_exits sample_env
                (run sample_env (initial sample_archive) (ticks 2)) PFetch
                sample_archive 13 3 15 [Tick; Tick; Signal; Tick]) as [HA HB].
  split.
  - refine (proj2 (HA _ _) _).
    + vm_compute. reflexivity.
    + reflexivity.
    + left. split; [reflexivity|]. vm_compute. reflexivity.
  - refine (proj1 (HB _ _)).
    + vm_compute. reflexivity.
    + intros n. vm_compute. reflexivity.
Defined.

(** ** Signals and the critical section *)

Lemma flag_inv_step (E : env) (s : state) (ev : event) :
  flag_inv s -> flag_inv (step E s ev).
Proof.
  unfold flag_inv, step. intros H.
  destruct (st s) as [p|c|e] eqn:Hp; [|now rewrite Hp..].
  destruct ev.
  - destruct p; cbn [exec_pc critical_pc] in *.
    + destruct (exists_ (file_path E) (fs s)); cbn; [assumption|].
      unfold perform. destruct (initialize_metadata (file_path E) (fs s)) as [fs' [u|e]];
        cbn; [assumption|exact I].
    + unfold perform. destruct (read_metadata (file_path E) (fs s)) as [fs' [v|e]];
        cbn; [|exact I].
      destruct v as [|l [|c [|b [|? ?]]]]; cbn; try exact I. assumption.
    + destruct (len _ =? 0); cbn; assumption.
    + destruct (last (messages s)); cbn; [assumption|exact I].
    + reflexivity.
    + unfold perform.
      destruct (overwrite_metadata (file_path E) (new_data s) (fs s)) as [fs' [u|e]];
        cbn; [assumption|exact I].
    + unfold perform.
      destruct (append_batch E (file_path E) (formatted_log s) (fs s)) as [fs' [u|e]];
        cbn; [assumption|exact I].
    + reflexivity.
    + destruct (shutdown_event s); cbn; [now split|].
      destruct (len (messages s) <? batch E); cbn; assumption.
    + cbn. split; [reflexivity|assumption].
  - unfold handle_signal. destruct (in_critical_section s) eqn:Hcs.
    + unfold set_shutdown. cbn. rewrite Hp, Hcs. exact H.
    + cbn. now split.
Qed.

Lemma flag_inv_run (E : env) (fs0 : filesystem) (evs : list event) :
  flag_inv (run E (initial fs0) evs).
Proof.
  induction evs as [|ev evs IH] using rev_ind.
  - reflexivity.
  - rewrite run_app. now apply flag_inv_step.
Qed.

Lemma run_signals (E : env) (s : state) (b : bool) (k : nat) (p : pc) :
  st s = Running p -> in_critical_section s = true ->
  run E (mark b s) (signals k) = mark (b || negb (k =? 0)%nat) s.
Proof.
  intros Hp Hcs. revert b. induction k as [|k IH]; intros b.
  - cbn. now rewrite orb_false_r.
  - change (signals (S k)) with ([Signal] ++ signals k). rewrite run_app.
    assert (Hs : run E (mark b s) [Signal] = mark true s).
    { destruct b; cbn; unfold step, handle_signal; cbn; rewrite Hp, Hcs; reflexivity. }
    rewrite Hs, IH. cbn. now rewrite orb_true_r.
Qed.

Lemma exec_mark (E : env) (s : state) (b : bool) (p : pc) :
  critical_pc p = true ->
  exec_pc E p (mark b s) = mark b (exec_pc E p s).
Proof.
  intros Hp. destruct b; [|reflexivity]. cbn [mark].
  destruct p; try discriminate Hp; cbn [exec_pc].
  - unfold perform, new_data. cbn.
    destruct (overwrite_metadata _ _ (fs s)) as [fs' [u|e]]; reflexivity.
  - unfold perform. cbn.
    destruct (append_batch _ _ _ (fs s)) as [fs' [u|e]]; reflexivity.
  - reflexivity.
Qed.

Lemma step_mark (E : env) (s : state) (b : bool) (p : pc) :
  st s = Running p -> critical_pc p = true ->
  step E (mark b s) Tick = mark b (step E s Tick).
Proof.
  intros Hp Hc. rewrite (step_tick E s p Hp).
  rewrite (step_tick E (mark b s) p) by (destruct b; assumption).
  now apply exec_mark.
Qed.

Lemma step_raised (E : env) (s : state) (ev : event) (e : exn) :
  st s = Raised e -> step E s ev = s.
Proof. intros H. apply step_stopped. intros p. rewrite H. discriminate. Qed.

Lemma commit_statuses (E : env) (s : state) :
  st s = Running POverwrite ->
  st (run E s (ticks 3)) = Running PCheck ->
  st (step E s Tick) = Running PAppend
  /\ st (step E (step E s Tick) Tick) = Running PLeave.
Proof.
  intros Hp Hdone.
  change (run E s (ticks 3)) with (step E (step E (step E s Tick) Tick) Tick) in Hdone.
  assert (HA : st (step E s Tick) = Running PAppend).
  { rewrite (step_tick E s _ Hp) in *. cbn [exec_pc] in *.
    destruct (st_perform (overwrite_metadata (file_path E) (new_data s)) s PAppend)
      as [H|[e H]]; [assumption|].
    rewrite !(step_raised E _ Tick e H) in Hdone.
    rewrite H in Hdone. discriminate. }
  split; [assumption|].
  set (sA := step E s Tick) in *.
  rewrite (step_tick E sA _ HA) in *. cbn [exec_pc] in *.
  destruct (st_perform (append_batch E (file_path E) (formatted_log sA)) sA PLeave)
    as [H|[e H]]; [assumption|].
  rewrite (step_raised E _ Tick e H) in Hdone.
  rewrite H in Hdone. discriminate.
Qed.

(** C3: on a signal, a session outside the critical section exits at once
    with code 0 and one inside it only has [shutdown_event] set.  The
    flag is set exactly at the statements from the metadata overwrite to
    the line that clears it.  Hence a signal that arrives between the
    overwrite and the append leaves the session at the append, and a
    commit during which signals arrive ends in the same state as the
    undisturbed commit, with [shutdown_event] set, after which the check
    that follows exits with code 0. *)
Theorem signal_deferred_in_commit (E : env) (fs0 : filesystem) (evs0 : list event)
    (k1 k2 k3 : nat) :
  let s := on_ready E fs0 evs0 in
  (forall p, st s = Running p -> in_critical_section s = false ->
     step E s Signal = halt (Exited 0) s)
  /\ (forall p, st s = Running p -> in_critical_section s = true ->
     step E s Signal = set_shutdown s)
  /\ (forall p, st s = Running p -> in_critical_section s = critical_pc p)
  /\ (st s = Running PAppend ->
      st (step E s Signal) = Running PAppend /\ fs (step E s Signal) = fs s)
  /\ (st s = Running POverwrite -> (0 < k1 + k2 + k3)%nat ->
      let done := run E s (ticks 3) in
      st done = Running PCheck ->
      let s' := run E s (signals k1 ++ [Tick] ++ signals k2 ++ [Tick]
                         ++ signals k3 ++ [Tick]) in
      s' = set_shutdown done /\ fs s' = fs done
      /\ step E s' Tick = halt (Exited 0) s').
Proof.
  intros s. unfold on_ready in s.
  pose proof (flag_inv_run E fs0 evs0) as Hinv. fold s in Hinv.
  assert (Hsig : forall p, st s = Running p -> in_critical_section s = true ->
                 step E s Signal = set_shutdown s).
  { intros p Hp Hcs. unfold step, handle_signal. now rewrite Hp, Hcs. }
  assert (Hflag : forall p, st s = Running p -> in_critical_section s = critical_pc p).
  { intros p Hp. unfold flag_inv in Hinv. now rewrite Hp in Hinv. }
  split; [|split; [exact Hsig|split; [exact Hflag|split]]].
  - intros p Hp Hcs. unfold step, handle_signal. now rewrite Hp, Hcs.
  - intros Hp. rewrite (Hsig _ Hp) by (now rewrite (Hflag _ Hp)).
    split; [exact Hp|reflexivity].
  - intros Hp Hk done Hdone s'.
    destruct (commit_statuses E s Hp Hdone) as [HA HB].
    set (sA := step E s Tick) in *. set (sB := step E sA Tick) in *.
    assert (HcsS : in_critical_section s = true) by now rewrite (Hflag _ Hp).
    assert (HcsA : in_critical_section sA = true).
    { pose proof (flag_inv_step E s Tick Hinv) as H. fold sA in H.
      unfold flag_inv in H. now rewrite HA in H. }
    assert (HcsB : in_critical_section sB = true).
    { pose proof (flag_inv_step E sA Tick (flag_inv_step E s Tick Hinv)) as H.
      fold sB in H. unfold flag_inv in H. now rewrite HB in H. }
    assert (Hs' : s' = mark (negb (k1 =? 0)%nat || negb (k2 =? 0)%nat
                             || negb (k3 =? 0)%nat) done).
    { subst s'. rewrite !run_app.
      change s with (mark false s) at 1.
      rewrite (run_signals E s false k1 _ Hp HcsS).
      change (run E (mark (false || negb (k1 =? 0)%nat) s) [Tick])
        with (step E (mark (false || negb (k1 =? 0)%nat) s) Tick).
      rewrite (step_mark E s _ _ Hp) by reflexivity. fold sA.
      rewrite (run_signals E sA _ k2 _ HA HcsA).
      match goal with
      | |- context [run E (mark ?b sA) [Tick]] =>
          change (run E (mark b sA) [Tick]) with (step E (mark b sA) Tick)
      end.
      rewrite (step_mark E sA _ _ HA) by reflexivity. fold sB.
      rewrite (run_signals E sB _ k3 _ HB HcsB).
      match goal with
      | |- context [run E (mark ?b sB) [Tick]] =>
          change (run E (mark b sB) [Tick]) with (step E (mark b sB) Tick)
      end.
      rewrite (step_mark E sB _ _ HB) by reflexivity.
      reflexivity. }
    assert (Hb : negb (k1 =? 0)%nat || negb (k2 =? 0)%nat || negb (k3 =? 0)%nat = true).
    { destruct k1; [|reflexivity]. destruct k2; [|reflexivity].
      destruct k3; [lia|reflexivity]. }
    rewrite Hb in Hs'. cbn [mark] in Hs'.
    clearbody s' done. subst s'.
    split; [reflexivity|]. split; [reflexivity|].
    unfold step. change (st (set_shutdown done)) with (st done).
    rewrite Hdone. reflexivity.
Qed.

Lemma signal_deferred_in_commit_witness :
  let s := on_ready sample_env ∅ (ticks 5) in
  let done := run sample_env s (ticks 3) in
  let s' := run sample_env s (signals 1 ++ [Tick] ++ signals 0 ++ [Tick]
                              ++ signals 2 ++ [Tick]) in
  s' = set_shutdown done /\ fs s' = fs done
  /\ step sample_env s' Tick = halt (Exited 0) s'.
Proof.
  cbv zeta.
  refine (proj2 (proj2 (proj2 (proj2
    (signal_deferred_in_commit sample_env ∅ (ticks 5) 1 0 2)))) _ _ _).
  - vm_compute. reflexivity.
  - cbn. lia.
  - vm_compute. reflexivity.
Defined.

(** ** Monotone counters *)

Lemma counters_le_refl (path : string) (fs1 : filesystem) : counters_le path fs1 fs1.
Proof. intros l c b H. exists l, c, b. split; [assumption|lia]. Qed.

Lemma counters_le_trans (path : string) (fs1 fs2 fs3 : filesystem) :
  counters_le path fs1 fs2 -> counters_le path fs2 fs3 -> counters_le path fs1 fs3.
Proof.
  intros H12 H23 l c b H.
  destruct (H12 l c b H) as (l2 & c2 & b2 & H2 & Hl & Hc).
  destruct (H23 l2 c2 b2 H2) as (l3 & c3 & b3 & H3 & Hl' & Hc').
  exists l3, c3, b3. split; [assumption|lia].
Qed.

Lemma len_pos {A} (l : list A) : l <> [] -> 0 < len l.
Proof. destruct l; [contradiction|]. intros _. unfold len. cbn [length]. lia. Qed.

Lemma counters_after_overwrite (fs1 fs2 : filesystem) (path : string)
    (vals : list Z) (u : unit) :
  overwrite_metadata path vals fs1 = (fs2, Ok u) -> counters path fs2 = Ok vals.
Proof.
  intros H.
  apply overwrite_metadata_ok_inv in H
    as (d & a & b & c & Hd & Hh & -> & Ha & Hb & Hc & ->).
  apply (counters_frame _ path a b c (drop 32 d)); try assumption.
  apply fs_lookup_insert_eq.
Qed.

Lemma counters_after_append (E : env) (fs1 fs2 : filesystem) (path : string)
    (text : str) (r : result unit) (v : list Z) :
  counters path fs1 = Ok v ->
  append_batch E path text fs1 = (fs2, r) -> counters path fs2 = Ok v.
Proof.
  intros Hv Hap.
  destruct (counters_ok_inv fs1 path v Hv) as (d & Hd & _).
  rewrite (append_batch_existing E fs1 path d text Hd) in Hap.
  destruct (encode_utf8 text); injection Hap as <- <-; [|assumption].
  now apply counters_append.
Qed.

Lemma sync_inv_step (E : env) (s : state) (ev : event) :
  fetch_after E -> sync_inv E s -> sync_inv E (step E s ev).
Proof.
  intros Hfetch Hinv. unfold step.
  destruct (st s) as [p| |] eqn:Hp; [|assumption..].
  destruct ev.
  - unfold sync_inv in Hinv. rewrite Hp in Hinv.
    destruct p; cbn [exec_pc].
    + (* PInit *)
      destruct (exists_ (file_path E) (fs s)); [exact I|].
      unfold perform.
      destruct (initialize_metadata (file_path E) (fs s)) as [fs' [u|e]]; exact I.
    + (* PLoad *)
      unfold perform. rewrite read_metadata_counters.
      destruct (counters (file_path E) (fs s)) as [v|e] eqn:Hc; [|exact I].
      destruct v as [|l [|c [|b [|? ?]]]]; try exact I.
      unfold sync_inv, new_data. cbn. rewrite Hc. do 3 f_equal.
      destruct (Z.eqb_spec l 0); cbn; congruence.
    + (* PFetch *)
      rewrite len_zero.
      destruct (decide (history E (requests s) (batch E) (last_read_message s) = []))
        as [He|Hne].
      * rewrite bool_decide_eq_true_2 by assumption. exact Hinv.
      * rewrite bool_decide_eq_false_2 by assumption.
        unfold sync_inv. cbn. split; [exact Hinv|]. split; [assumption|].
        intros m Hm. apply (Hfetch (requests s) (batch E)).
        now apply last_Some_elem_of.
    + (* PFormat *)
      destruct Hinv as (Hc & Hne & Hlast).
      destruct (last (messages s)) as [m|] eqn:Hm; [|exact I].
      unfold sync_inv. cbn. split; [assumption|].
      unfold new_data in Hc. eexists _, _, _. split; [exact Hc|].
      split; [now apply Hlast|].
      pose proof (len_pos (messages s) Hne). lia.
    + (* PEnter *)
      exact Hinv.
    + (* POverwrite *)
      unfold perform.
      destruct (overwrite_metadata (file_path E) (new_data s) (fs s))
        as [fs' [u|e]] eqn:Hov; [|exact I].
      unfold sync_inv. cbn.
      now apply counters_after_overwrite in Hov.
    + (* PAppend *)
      unfold perform.
      destruct (append_batch E (file_path E) (formatted_log s) (fs s))
        as [fs' r] eqn:Hap.
      pose proof (counters_after_append E _ _ _ _ _ _ Hinv Hap) as Hc.
      destruct r; [|exact I]. exact Hc.
    + (* PLeave *)
      exact Hinv.
    + (* PCheck *)
      destruct (shutdown_event s); [exact I|].
      destruct (len (messages s) <? batch E); exact Hinv.
    + (* PFinish *)
      exact I.
  - unfold handle_signal. destruct (in_critical_section s); [|exact I].
    exact Hinv.
Qed.

Lemma sync_inv_run (E : env) (fs0 : filesystem) (evs : list event) :
  fetch_after E -> sync_inv E (run E (initial fs0) evs).
Proof.
  intros Hfetch. induction evs as [|ev evs IH] using rev_ind.
  - exact I.
  - rewrite run_app. now apply sync_inv_step.
Qed.

Lemma commit_increases (E : env) (s : state) :
  sync_inv E s -> st s = Running POverwrite ->
  st (step E s Tick) = Running PAppend ->
  messages s <> [] /\ counters_lt (file_path E) (fs s) (fs (step E s Tick)).
Proof.
  intros Hinv Hp Hnext. unfold sync_inv in Hinv. rewrite Hp in Hinv.
  destruct Hinv as (Hne & l & c & b & Hc & Hl & Hcount).
  split; [assumption|].
  rewrite (step_tick E s _ Hp) in *. cbn [exec_pc] in *. unfold perform in *.
  destruct (overwrite_metadata (file_path E) (new_data s) (fs s))
    as [fs' [u|e]] eqn:Hov; [|discriminate Hnext].
  apply counters_after_overwrite in Hov.
  exists l, c, b, (default 0 (last_read_message s)), (total_messages_read s),
    (uncompressed_size s).
  repeat split; assumption.
Qed.

Lemma counters_le_step (E : env) (s : state) (ev : event) :
  sync_inv E s -> counters_le (file_path E) (fs s) (fs (step E s ev)).
Proof.
  intros Hinv. unfold step.
  destruct (st s) as [p| |] eqn:Hp; [|apply counters_le_refl..].
  destruct ev.
  - destruct p; cbn [exec_pc]; try apply counters_le_refl.
    + (* PInit *)
      unfold exists_. case_bool_decide as Hex; cbn [negb]; [apply counters_le_refl|].
      intros l c b Hc. apply counters_ok_inv in Hc as (d & Hd & _).
      contradict Hex. now exists d.
    + (* PLoad *)
      unfold perform. rewrite read_metadata_counters.
      destruct (counters (file_path E) (fs s)) as [v|e]; [|apply counters_le_refl].
      destruct v as [|l [|c [|b [|? ?]]]]; apply counters_le_refl.
    + (* PFetch *)
      destruct (len _ =? 0); apply counters_le_refl.
    + (* PFormat *)
      destruct (last (messages s)); apply counters_le_refl.
    + (* POverwrite *)
      destruct (st_perform (overwrite_metadata (file_path E) (new_data s)) s PAppend)
        as [Hok|[e Hraise]].
      * assert (Hok' : st (step E s Tick) = Running PAppend)
          by (rewrite (step_tick E s _ Hp); exact Hok).
        destruct (commit_increases E s Hinv Hp Hok')
          as (_ & l & c & b & l' & c' & b' & Hc & Hc' & Hl & Hcount).
        rewrite (step_tick E s _ Hp) in Hc'. cbn [exec_pc] in Hc'.
        intros l0 c0 b0 Hc0. rewrite Hc in Hc0. injection Hc0 as <- <- <-.
        exists l', c', b'. split; [assumption|lia].
      * unfold perform in *.
        destruct (overwrite_metadata (file_path E) (new_data s) (fs s))
          as [fs' [u|e']] eqn:Hov; [discriminate Hraise|].
        apply overwrite_metadata_raise in Hov. subst fs'. apply counters_le_refl.
    + (* PAppend *)
      unfold perform.
      destruct (append_batch E (file_path E) (formatted_log s) (fs s))
        as [fs' r] eqn:Hap.
      intros l c b Hc.
      pose proof (counters_after_append E _ _ _ _ _ _ Hc Hap) as Hc'.
      exists l, c, b. split; [destruct r; exact Hc'|lia].
    + (* PCheck *)
      destruct (shutdown_event s); [apply counters_le_refl|].
      destruct (len (messages s) <? batch E); apply counters_le_refl.
  - unfold handle_signal. destruct (in_critical_section s); apply counters_le_refl.
Qed.

Lemma counters_le_run (E : env) (s : state) (evs : list event) :
  fetch_after E -> sync_inv E s ->
  sync_inv E (run E s evs) /\ counters_le (file_path E) (fs s) (fs (run E s evs)).
Proof.
  intros Hfetch Hinv. induction evs as [|ev evs [IH1 IH2]] using rev_ind.
  - split; [assumption|apply counters_le_refl].
  - rewrite run_app. split.
    + now apply sync_inv_step.
    + eapply counters_le_trans; [exact IH2|]. now apply counters_le_step.
Qed.

Lemma counters_le_sessions (path : string) (fs0 : filesystem)
    (runs : list (env * list event)) :
  Forall (fun r => file_path (fst r) = path /\ fetch_after (fst r)) runs ->
  counters_le path fs0 (sessions fs0 runs).
Proof.
  intros Hruns. revert fs0.
  induction Hruns as [|[E evs] runs [Hpath Hfetch] _ IH]; intros fs0.
  - apply counters_le_refl.
  - cbn in Hpath, Hfetch. unfold sessions, on_ready. cbn [fold_left fst snd].
    eapply counters_le_trans; [|apply IH].
    rewrite <- Hpath.
    now apply (counters_le_run E (initial fs0) evs Hfetch).
Qed.

(** C5: over any sequence of sessions of the archive, and within a
    session under any schedule of ticks and signals, the last committed
    message id and the message count stored in the archive never
    decrease, provided every fetch returns only messages newer than the
    cursor; a commit happens only for a non-empty batch, and then both
    counters grow strictly. *)
Theorem counters_monotone (path : string) (fs0 : filesystem)
    (runs : list (env * list event)) (E : env) (evs1 evs2 : list event) :
  Forall (fun r => file_path (fst r) = path /\ fetch_after (fst r)) runs ->
  file_path E = path -> fetch_after E ->
  let s1 := on_ready E (sessions fs0 runs) evs1 in
  let s2 := run E s1 evs2 in
  counters_le path fs0 (fs s1)
  /\ counters_le path (fs s1) (fs s2)
  /\ (st s1 = Running POverwrite -> st (step E s1 Tick) = Running PAppend ->
      messages s1 <> [] /\ counters_lt path (fs s1) (fs (step E s1 Tick))).
Proof.
  intros Hruns Hpath Hfetch s1 s2. unfold on_ready in s1. subst path.
  pose proof (sync_inv_run E (sessions fs0 runs) evs1 Hfetch) as Hinv1.
  fold s1 in Hinv1.
  split; [|split].
  - apply (counters_le_trans _ fs0 (sessions fs0 runs)).
    + now apply counters_le_sessions.
    + exact (proj2 (counters_le_run E (initial (sessions fs0 runs)) evs1 Hfetch I)).
  - exact (proj2 (counters_le_run E s1 evs2 Hfetch Hinv1)).
  - intros Hp Hnext. now apply commit_increases.
Qed.

Lemma sample_fetch_after : fetch_after sample_env.
Proof.
  intros n lim after m Hm.
  change (history sample_env n lim after) with (sample_history n lim after) in Hm.
  unfold sample_history in Hm.
  apply list_elem_of_filter in Hm as [Hm _].
  now apply bool_decide_unpack in Hm.
Qed.

Lemma counters_monotone_witness :
  let s1 := on_ready sample_env (sessions ∅ [(sample_env, [Tick; Signal])]) (ticks 5) in
  messages s1 <> []
  /\ counters_lt "a.zst" (fs s1) (fs (step sample_env s1 Tick)).
Proof.
  cbv zeta.
  refine (proj2 (proj2 (counters_monotone "a.zst" ∅ [(sample_env, [Tick; Signal])]
                          sample_env (ticks 5) [] _ _ _)) _ _).
  - constructor; [|constructor]. split; [reflexivity|exact sample_fetch_after].
  - reflexivity.
  - exact sample_fetch_after.
  - vm_compute. reflexivity.
  - vm_compute. reflexivity.
Defined.

(** * Further properties of the code *)

(** ** Reading and rewriting the frame *)

Lemma le_value_bound (bs : bytes) : 0 <= le_value bs < 2 ^ (8 * Z.of_nat (length bs)).
Proof.
  induction bs as [|b bs IH]; [cbn; lia|].
  cbn [le_value length]. pose proof (Z_of_byte_range b).
  replace (8 * Z.of_nat (S (length bs))) with (8 + 8 * Z.of_nat (length bs)) by lia.
  rewrite Z.pow_add_r by lia. change (2 ^ 8) with 256. nia.
Qed.

Lemma le_bytes_le_value (bs : bytes) : le_bytes (length bs) (le_value bs) = bs.
Proof.
  induction bs as [|b bs IH]; [reflexivity|].
  cbn [length le_value le_bytes]. pose proof (Z_of_byte_range b) as Hb.
  f_equal.
  - apply Z_of_byte_inj. rewrite Z_of_byte_of_Z.
    rewrite (Z.mul_comm 256), Z.mod_add by lia. apply Z.mod_small. lia.
  - rewrite (Z.mul_comm 256), Z.div_add by lia.
    rewrite (Z.div_small (Z_of_byte b)) by lia. exact IH.
Qed.

Lemma unpack_at_offsets (d : bytes) :
  (32 <= length d)%nat ->
  struct_unpack fmt_lt_3Q (take 24 (drop 8 d)) =
  Ok [le_value (take 8 (drop 8 d)); le_value (take 8 (drop 16 d));
      le_value (take 8 (drop 24 d))].
Proof.
  intros Hlen. unfold struct_unpack. cbn [fmt_width fmt_count fmt_order fmt_lt_3Q].
  rewrite length_take, length_drop.
  destruct (Nat.eqb_spec (24 `min` (length d - 8)) (8 * 3)) as [_|Hne]; [|lia].
  cbn [chunks map int_value]. do 2 f_equal; [|f_equal; [|f_equal]].
  - now rewrite take_take.
  - change (take 24 (drop 8 d)) with (take (8 + 16) (drop 8 d)).
    rewrite <- take_drop_commute, take_take, drop_drop. reflexivity.
  - rewrite drop_drop. change (take 24 (drop 8 d)) with (take (8 + 8 + 8) (drop 8 d)).
    rewrite <- take_drop_commute, take_take, drop_drop. reflexivity.
Qed.

Lemma decode_at_offsets (fs0 : filesystem) (path : string) (d : bytes) :
  fs0 !! path = Some d -> take 8 d = FRAME_HEADER -> (32 <= length d)%nat ->
  read_metadata path fs0 =
    (fs0, Ok [le_value (take 8 (drop 8 d)); le_value (take 8 (drop 16 d));
              le_value (take 8 (drop 24 d))])
  /\ u64 (le_value (take 8 (drop 8 d)))
  /\ u64 (le_value (take 8 (drop 16 d)))
  /\ u64 (le_value (take 8 (drop 24 d))).
Proof.
  intros Hd Hh Hlen. split.
  - rewrite read_metadata_counters. f_equal.
    rewrite (counters_accepts fs0 path d Hd Hh). now apply unpack_at_offsets.
  - assert (Hu : forall k, (k + 8 <= length d)%nat -> u64 (le_value (take 8 (drop k d)))).
    { intros k Hk. pose proof (le_value_bound (take 8 (drop k d))) as Hb.
      rewrite length_take, length_drop in Hb.
      replace (8 `min` (length d - k))%nat with 8%nat in Hb by lia. exact Hb. }
    repeat split; apply Hu; lia.
Qed.

(** X1: on a file that starts with the header and has at least 32 bytes,
    [read_metadata] leaves the file system as it is and returns the
    little-endian values of the bytes at offsets 8-15, 16-23 and 24-31,
    each of them a u64, whatever follows in the file. *)
Theorem read_metadata_decodes (fs0 : filesystem) (path : string) (d : bytes) :
  fs0 !! path = Some d -> take 8 d = FRAME_HEADER -> (32 <= length d)%nat ->
  read_metadata path fs0 =
    (fs0, Ok [le_value (take 8 (drop 8 d)); le_value (take 8 (drop 16 d));
              le_value (take 8 (drop 24 d))])
  /\ u64 (le_value (take 8 (drop 8 d)))
  /\ u64 (le_value (take 8 (drop 16 d)))
  /\ u64 (le_value (take 8 (drop 24 d))).
Proof. apply decode_at_offsets. Qed.

Lemma read_metadata_decodes_witness :
  read_metadata "a.zst" sample_archive
  = (sample_archive,
     Ok [le_value (take 8 (drop 8 (FRAME_HEADER ++ payload 13 3 15 ++ sample_compress (utf8 (format_messages [] sample_messages)))));
         le_value (take 8 (drop 16 (FRAME_HEADER ++ payload 13 3 15 ++ sample_compress (utf8 (format_messages [] sample_messages)))));
         le_value (take 8 (drop 24 (FRAME_HEADER ++ payload 13 3 15 ++ sample_compress (utf8 (format_messages [] sample_messages)))))]).
Proof.
  refine (proj1 (read_metadata_decodes sample_archive "a.zst"
    (FRAME_HEADER ++ payload 13 3 15
       ++ sample_compress (utf8 (format_messages [] sample_messages))) _ _ _)).
  - vm_compute. reflexivity.
  - reflexivity.
  - vm_compute. lia.
Defined.



Lemma struct_pack_bad (vals : list Z) :
  length vals <> 3%nat \/ Exists (fun v => ~ u64 v) vals ->
  struct_pack fmt_lt_3Q vals = Raise struct_error.
Proof.
  intros Hbad. unfold struct_pack. cbn [fmt_count fmt_width fmt_lt_3Q].
  destruct (Nat.eqb_spec (length vals) 3) as [Hlen|Hlen]; cbn [negb]; [|reflexivity].
  destruct Hbad as [Hne|Hex]; [contradiction|].
  destruct (forallb (in_range 8) vals) eqn:Hall; [|reflexivity].
  rewrite forallb_forall in Hall.
  apply Exists_exists in Hex as (v & Hv & Hnot).
  contradict Hnot. apply in_range_u64, Hall. now apply list_elem_of_In.
Qed.

(** X3: [overwrite_metadata] never writes a part of its change: whenever
    it raises, the file system is as before.  In particular counters that
    are not three u64 values (a negative one, one of 2^64 or more) make it
    raise [struct.error] on an archive with a good header, which keeps its
    old counters; a counter is never wrapped around. *)
Theorem overwrite_metadata_all_or_nothing (fs0 : filesystem) (path : string)
    (d : bytes) (vals : list Z) :
  (forall fs1 e, overwrite_metadata path vals fs0 = (fs1, Raise e) -> fs1 = fs0)
  /\ (fs0 !! path = Some d -> take 8 d = FRAME_HEADER ->
      length vals <> 3%nat \/ Exists (fun v => ~ u64 v) vals ->
      overwrite_metadata path vals fs0 = (fs0, Raise struct_error)).
Proof.
  split; [intros fs1 e; apply overwrite_metadata_raise|].
  intros Hd Hh Hbad. unfold overwrite_metadata, with_open, open. rewrite Hd.
  rewrite (header_split d Hh) at 1. rewrite overwrite_body_header.
  rewrite (struct_pack_bad vals Hbad). cbn [f_data].
  rewrite <- (header_split d Hh). now rewrite fs_insert_id.
Qed.

Lemma overwrite_metadata_all_or_nothing_witness :
  overwrite_metadata "a.zst" [14; 2 ^ 64; 20] sample_archive
  = (sample_archive, Raise struct_error).
Proof.
  refine (proj2 (overwrite_metadata_all_or_nothing sample_archive "a.zst"
    (FRAME_HEADER ++ payload 13 3 15
       ++ sample_compress (utf8 (format_messages [] sample_messages)))
    [14; 2 ^ 64; 20]) _ _ _).
  - vm_compute. reflexivity.
  - reflexivity.
  - right. apply Exists_cons_tl, Exists_cons_hd. unfold u64. lia.
Defined.

(** X4: of two successive overwrites the second one wins: the file system
    is the one the second overwrite alone would have left. *)
Theorem overwrite_metadata_twice (fs0 : filesystem) (path : string) (d : bytes)
    (a1 b1 c1 a2 b2 c2 : Z) :
  fs0 !! path = Some d -> take 8 d = FRAME_HEADER ->
  u64 a1 -> u64 b1 -> u64 c1 -> u64 a2 -> u64 b2 -> u64 c2 ->
  overwrite_metadata path [a2; b2; c2] (fst (overwrite_metadata path [a1; b1; c1] fs0))
  = overwrite_metadata path [a2; b2; c2] fs0.
Proof.
  intros Hd Hh Ha1 Hb1 Hc1 Ha2 Hb2 Hc2.
  rewrite (overwrite_metadata_accepts fs0 path d a1 b1 c1) by assumption. cbn [fst].
  rewrite (overwrite_metadata_accepts _ path
             (FRAME_HEADER ++ payload a1 b1 c1 ++ drop 32 d) a2 b2 c2);
    try assumption; [|apply fs_lookup_insert_eq|reflexivity].
  rewrite (overwrite_metadata_accepts fs0 path d a2 b2 c2) by assumption.
  rewrite fs_insert_insert_eq.
  assert (Hdrop : drop 32 (FRAME_HEADER ++ payload a1 b1 c1 ++ drop 32 d) = drop 32 d).
  { rewrite (app_assoc FRAME_HEADER).
    apply drop_app_length'. rewrite length_app, length_payload. reflexivity. }
  rewrite Hdrop. reflexivity.
Qed.

Lemma overwrite_metadata_twice_witness :
  overwrite_metadata "a.zst" [20; 5; 30]
    (fst (overwrite_metadata "a.zst" [14; 4; 20] sample_archive))
  = overwrite_metadata "a.zst" [20; 5; 30] sample_archive.
Proof.
  refine (overwrite_metadata_twice sample_archive "a.zst"
    (FRAME_HEADER ++ payload 13 3 15
       ++ sample_compress (utf8 (format_messages [] sample_messages)))
    14 4 20 20 5 30 _ _ _ _ _ _ _ _).
  - vm_compute. reflexivity.
  - reflexivity.
  - unfold u64. lia.
  - unfold u64. lia.
  - unfold u64. lia.
  - unfold u64. lia.
  - unfold u64. lia.
  - unfold u64. lia.
Defined.

(** X5: writing back the counters that [read_metadata] returned changes
    nothing: decoding and re-encoding the payload gives the same 24
    bytes. *)
Theorem overwrite_metadata_read_values (fs0 : filesystem) (path : string)
    (v : list Z) :
  counters path fs0 = Ok v ->
  overwrite_metadata path v fs0 = (fs0, Ok tt).
Proof.
  intros Hv.
  destruct (counters_ok_inv fs0 path v Hv) as (d & Hd & Hh & Hlen).
  destruct (decode_at_offsets fs0 path d Hd Hh Hlen) as (Hread & Ha & Hb & Hc).
  rewrite read_metadata_counters, Hv in Hread. injection Hread as ->.
  rewrite (overwrite_metadata_accepts fs0 path d) by assumption.
  f_equal. rewrite <- (fs_insert_id fs0 path d Hd) at 2. f_equal.
  unfold payload.
  assert (Hle : forall k, (k + 8 <= length d)%nat ->
            le_bytes 8 (le_value (take 8 (drop k d))) = take 8 (drop k d)).
  { intros k Hk.
    rewrite <- (le_bytes_le_value (take 8 (drop k d))) at 2.
    rewrite length_take, length_drop.
    now replace (8 `min` (length d - k))%nat with 8%nat by lia. }
  rewrite !Hle by lia. rewrite <- Hh.
  assert (E3 : take 8 (drop 24 d) ++ drop 32 d = drop 24 d).
  { change 32%nat with (24 + 8)%nat. rewrite <- drop_drop. apply take_drop. }
  assert (E2 : take 8 (drop 16 d) ++ drop 24 d = drop 16 d).
  { change 24%nat with (16 + 8)%nat. rewrite <- drop_drop. apply take_drop. }
  assert (E1 : take 8 (drop 8 d) ++ drop 16 d = drop 8 d).
  { change 16%nat with (8 + 8)%nat. rewrite <- drop_drop. apply take_drop. }
  rewrite <- !app_assoc. rewrite E3, E2, E1. apply take_drop.
Qed.

Lemma overwrite_metadata_read_values_witness :
  overwrite_metadata "a.zst" [13; 3; 15] sample_archive = (sample_archive, Ok tt).
Proof.
  refine (overwrite_metadata_read_values sample_archive "a.zst" [13; 3; 15] _).
  vm_compute. reflexivity.
Defined.

(** ** Appending a batch *)

Lemma append_batch_missing (E : env) (fs0 : filesystem) (path : string) (text : str) :
  fs0 !! path = None ->
  append_batch E path text fs0 =
  match create_error path fs0 with
  | None => match encode_utf8 text with
            | Ok text_bytes => (<[path := compress E text_bytes]> fs0, Ok tt)
            | Raise e => (<[path := []]> fs0, Raise e)
            end
  | Some e => (fs0, Raise e)
  end.
Proof.
  intros Hd. unfold append_batch, with_open, open. rewrite Hd.
  destruct (create_error path fs0); [reflexivity|].
  unfold append_batch_body, fbind, flift, file_write.
  destruct (encode_utf8 text); reflexivity.
Qed.

Lemma with_open_other {A} (path other : string) (m : mode) (body : fileM A)
    (fs0 : filesystem) :
  other <> path -> fst (with_open path m body fs0) !! other = fs0 !! other.
Proof.
  intros Hne. unfold with_open.
  destruct (open path m fs0) as [f|e]; [|reflexivity].
  destruct (body f) as [f' r]. cbn [fst]. now apply fs_lookup_insert_ne.
Qed.

(** X6: [append_batch] of an encodable text succeeds whenever the file
    exists or can be created: it creates the file when it is absent and
    otherwise keeps every byte the file had, putting the compressed UTF-8
    encoding of the text after them; no other file is touched. *)
Theorem append_batch_appends (E : env) (fs0 : filesystem) (path other : string)
    (text : str) :
  encodable text -> other <> path ->
  is_Some (fs0 !! path) \/ create_error path fs0 = None ->
  let fs1 := fst (append_batch E path text fs0) in
  snd (append_batch E path text fs0) = Ok tt
  /\ fs1 !! path = Some (default [] (fs0 !! path) ++ compress E (utf8 text))
  /\ fs1 !! other = fs0 !! other.
Proof.
  intros Henc Hne Hok fs1. subst fs1.
  assert (Hap : append_batch E path text fs0
                = (<[path := default [] (fs0 !! path) ++ compress E (utf8 text)]> fs0,
                   Ok tt)).
  { destruct (fs0 !! path) as [d|] eqn:Hd.
    - rewrite (append_batch_existing E fs0 path d text Hd).
      unfold encode_utf8. now rewrite Henc.
    - destruct Hok as [[d' Hd']|Hcr]; [discriminate Hd'|].
      rewrite (append_batch_missing E fs0 path text Hd), Hcr.
      unfold encode_utf8. now rewrite Henc. }
  split; [now rewrite Hap|]. split.
  - rewrite Hap. apply fs_lookup_insert_eq.
  - now apply with_open_other.
Qed.

Lemma append_batch_appends_witness :
  fst (append_batch sample_env "a.zst" [104; 105] {[ "a.zst"%string := [x01] ]})
    !! "a.zst"%string
  = Some (default [] (({[ "a.zst"%string := [x01] ]} : filesystem) !! "a.zst"%string)
          ++ compress sample_env (utf8 [104; 105])).
Proof.
  refine (proj1 (proj2 (append_batch_appends sample_env
    {[ "a.zst"%string := [x01] ]} "a.zst" "b.zst" [104; 105] _ _ _))).
  - reflexivity.
  - discriminate.
  - left. eexists. reflexivity.
Defined.



Lemma append_batch_keeps_counters_aux (E : env) (fs0 : filesystem) (path : string)
    (text : str) (v : list Z) :
  counters path fs0 = Ok v ->
  counters path (fst (append_batch E path text fs0)) = Ok v.
Proof.
  intros Hv.
  destruct (append_batch E path text fs0) as [fs1 r] eqn:Hap.
  exact (counters_after_append E fs0 fs1 path text r v Hv Hap).
Qed.

(** X8: on an archive whose counters can be read, [append_batch] does not
    change what [read_metadata] returns, whether it succeeds or raises. *)
Theorem append_batch_keeps_counters (E : env) (fs0 : filesystem) (path : string)
    (text : str) (v : list Z) :
  counters path fs0 = Ok v ->
  counters path (fst (append_batch E path text fs0)) = Ok v.
Proof. apply append_batch_keeps_counters_aux. Qed.

Lemma append_batch_keeps_counters_witness :
  counters "a.zst" (fst (append_batch sample_env "a.zst" [104; 105] sample_archive))
  = Ok [13; 3; 15].
Proof.
  refine (append_batch_keeps_counters sample_env sample_archive "a.zst" [104; 105]
            [13; 3; 15] _).
  vm_compute. reflexivity.
Defined.

(** X9: on an archive of at least 32 bytes the two steps of a commit
    commute: overwriting the counters and then appending the batch leaves
    the same file system as appending first and overwriting afterwards. *)
Theorem overwrite_append_commute (E : env) (fs0 : filesystem) (path : string)
    (d : bytes) (a b c : Z) (text : str) :
  fs0 !! path = Some d -> take 8 d = FRAME_HEADER -> (32 <= length d)%nat ->
  u64 a -> u64 b -> u64 c ->
  fst (append_batch E path text (fst (overwrite_metadata path [a; b; c] fs0)))
  = fst (overwrite_metadata path [a; b; c] (fst (append_batch E path text fs0))).
Proof.
  intros Hd Hh Hlen Ha Hb Hc.
  rewrite (overwrite_metadata_accepts fs0 path d a b c) by assumption. cbn [fst].
  rewrite (append_batch_existing E _ path (FRAME_HEADER ++ payload a b c ++ drop 32 d))
    by apply fs_lookup_insert_eq.
  rewrite (append_batch_existing E fs0 path d text Hd).
  destruct (encode_utf8 text) as [text_bytes|e]; cbn [fst].
  - rewrite (overwrite_metadata_accepts _ path (d ++ compress E text_bytes) a b c);
      try assumption; [|apply fs_lookup_insert_eq|now rewrite take_app_le by lia].
    cbn [fst]. rewrite !fs_insert_insert_eq.
    rewrite drop_app_le by lia. now rewrite <- !app_assoc.
  - now rewrite (overwrite_metadata_accepts fs0 path d a b c) by assumption.
Qed.

Lemma overwrite_append_commute_witness :
  fst (append_batch sample_env "a.zst" [104; 105]
         (fst (overwrite_metadata "a.zst" [20; 4; 17] sample_archive)))
  = fst (overwrite_metadata "a.zst" [20; 4; 17]
           (fst (append_batch sample_env "a.zst" [104; 105] sample_archive))).
Proof.
  refine (overwrite_append_commute sample_env sample_archive "a.zst"
    (FRAME_HEADER ++ payload 13 3 15
       ++ sample_compress (utf8 (format_messages [] sample_messages)))
    20 4 17 [104; 105] _ _ _ _ _ _).
  - vm_compute. reflexivity.
  - reflexivity.
  - vm_compute. lia.
  - unfold u64. lia.
  - unfold u64. lia.
  - unfold u64. lia.
Defined.

(** ** The archive during a session *)

(** The only writes of a session. *)
Lemma fs_step_cases (E : env) (s : state) (ev : event) :
  fs (step E s ev) = fs s
  \/ (st s = Running PInit /\ fs (step E s ev) = fst (initialize_metadata (file_path E) (fs s))
      /\ fs s !! file_path E = None)
  \/ (st s = Running POverwrite
      /\ fs (step E s ev) = fst (overwrite_metadata (file_path E) (new_data s) (fs s)))
  \/ (st s = Running PAppend
      /\ fs (step E s ev) = fst (append_batch E (file_path E) (formatted_log s) (fs s))).
Proof.
  unfold step. destruct (st s) as [p| |] eqn:Hp; [|now left..].
  destruct ev.
  - destruct p; cbn [exec_pc].
    + unfold exists_. case_bool_decide as Hex; cbn [negb]; [now left|].
      right; left. split; [reflexivity|]. split.
      * unfold perform.
        destruct (initialize_metadata (file_path E) (fs s)) as [fs' [u|e]];
          reflexivity.
      * destruct (fs s !! file_path E) eqn:Hd; [|reflexivity].
        contradict Hex. eauto.
    + left. unfold perform. rewrite read_metadata_counters.
      destruct (counters (file_path E) (fs s)) as [v|e]; [|reflexivity].
      destruct v as [|l [|c [|b [|? ?]]]]; reflexivity.
    + left. destruct (len _ =? 0); reflexivity.
    + left. destruct (last (messages s)); reflexivity.
    + now left.
    + right; right; left. split; [reflexivity|]. unfold perform.
      destruct (overwrite_metadata _ _ (fs s)) as [fs' [u|e]]; reflexivity.
    + right; right; right. split; [reflexivity|]. unfold perform.
      destruct (append_batch _ _ _ (fs s)) as [fs' [u|e]]; reflexivity.
    + now left.
    + left. destruct (shutdown_event s); [reflexivity|].
      destruct (len (messages s) <? batch E); reflexivity.
    + now left.
  - left. unfold handle_signal. destruct (in_critical_section s); reflexivity.
Qed.

Lemma step_other_path (E : env) (s : state) (ev : event) (other : string) :
  other <> file_path E -> fs (step E s ev) !! other = fs s !! other.
Proof.
  intros Hne.
  destruct (fs_step_cases E s ev) as [H|[(_ & H & _)|[(_ & H)|(_ & H)]]]; rewrite H.
  - reflexivity.
  - now apply with_open_other.
  - now apply with_open_other.
  - now apply with_open_other.
Qed.

Lemma run_other_path (E : env) (s : state) (evs : list event)
    (other : string) :
  other <> file_path E -> fs (run E s evs) !! other = fs s !! other.
Proof.
  intros Hne. induction evs as [|ev evs IH] using rev_ind; [reflexivity|].
  rewrite run_app. cbn [run fold_left].
  change (fold_left (step E) [ev] (run E s evs)) with (step E (run E s evs) ev).
  now rewrite step_other_path.
Qed.

(** X10: a session reads and writes one file only: under every schedule
    of ticks and signals, from any state, every path other than the
    archive's has the contents (or the absence) it had. *)
Theorem session_touches_only_archive (E : env) (s : state) (evs : list event)
    (other : string) :
  other <> file_path E -> fs (run E s evs) !! other = fs s !! other.
Proof. apply run_other_path. Qed.

Lemma session_touches_only_archive_witness :
  fs (run sample_env (initial {[ "notes.txt"%string := [x41] ]}) (ticks 10))
    !! "notes.txt"%string
  = fs (initial {[ "notes.txt"%string := [x41] ]}) !! "notes.txt"%string.
Proof.
  refine (session_touches_only_archive sample_env
            (initial {[ "notes.txt"%string := [x41] ]}) (ticks 10) "notes.txt" _).
  discriminate.
Defined.

Lemma archive_extends_refl (path : string) (fs1 : filesystem) :
  archive_extends path fs1 fs1.
Proof. intros d Hd Hh Hlen. exists d. repeat split; try assumption; reflexivity. Qed.

Lemma archive_extends_trans (path : string) (fs1 fs2 fs3 : filesystem) :
  archive_extends path fs1 fs2 -> archive_extends path fs2 fs3 ->
  archive_extends path fs1 fs3.
Proof.
  intros H12 H23 d Hd Hh Hlen.
  destruct (H12 d Hd Hh Hlen) as (d2 & Hd2 & Hh2 & Hp2 & Hl2).
  destruct (H23 d2 Hd2 Hh2 ltac:(lia)) as (d3 & Hd3 & Hh3 & Hp3 & Hl3).
  exists d3. repeat split; try assumption; [|lia].
  now transitivity (drop 32 d2).
Qed.

Lemma archive_extends_step (E : env) (s : state) (ev : event) :
  archive_extends (file_path E) (fs s) (fs (step E s ev)).
Proof.
  destruct (fs_step_cases E s ev) as [H|[(_ & _ & Hnone)|[(_ & H)|(_ & H)]]].
  - rewrite H. apply archive_extends_refl.
  - intros d Hd. rewrite Hnone in Hd. discriminate.
  - rewrite H. intros d Hd Hh Hlen.
    destruct (overwrite_metadata (file_path E) (new_data s) (fs s)) as [fs' [u|e]] eqn:Hov.
    + apply overwrite_metadata_ok_inv in Hov
        as (d0 & a & b & c & Hd0 & _ & _ & _ & _ & _ & ->).
      rewrite Hd in Hd0. injection Hd0 as <-.
      eexists. split; [apply fs_lookup_insert_eq|]. split; [reflexivity|].
      split.
      * rewrite (app_assoc FRAME_HEADER).
        rewrite drop_app_length' by (rewrite length_app, length_payload; reflexivity).
        reflexivity.
      * rewrite !length_app, length_payload, length_drop.
        change (length FRAME_HEADER) with 8%nat. lia.
    + apply overwrite_metadata_raise in Hov. subst fs'. cbn [fst].
      exists d. repeat split; try assumption; reflexivity.
  - rewrite H. intros d Hd Hh Hlen.
    rewrite (append_batch_existing E (fs s) (file_path E) d _ Hd).
    destruct (encode_utf8 (formatted_log s)) as [text_bytes|e]; cbn [fst].
    + eexists. split; [apply fs_lookup_insert_eq|].
      split; [now rewrite take_app_le by lia|]. split.
      * rewrite drop_app_le by lia. now apply prefix_app_r.
      * rewrite length_app. lia.
    + exists d. repeat split; try assumption; reflexivity.
Qed.

(** X11: a session never rewrites or truncates what the archive holds:
    if the archive starts with the header and has at least 32 bytes, then
    after any events it still exists and starts with the header, its old
    batch region (the bytes from offset 32 on) is a prefix of the new one,
    and it is no shorter. *)
Theorem session_extends_archive (E : env) (s : state) (evs : list event) (d : bytes) :
  fs s !! file_path E = Some d -> take 8 d = FRAME_HEADER -> (32 <= length d)%nat ->
  exists d', fs (run E s evs) !! file_path E = Some d' /\ take 8 d' = FRAME_HEADER /\
             drop 32 d `prefix_of` drop 32 d' /\ (length d <= length d')%nat.
Proof.
  revert d. change (archive_extends (file_path E) (fs s) (fs (run E s evs))).
  induction evs as [|ev evs IH] using rev_ind; [apply archive_extends_refl|].
  rewrite run_app.
  eapply archive_extends_trans; [exact IH|].
  apply (archive_extends_step E (run E s evs) ev).
Qed.

Lemma session_extends_archive_witness :
  exists d',
    fs (run sample_env (initial {[ "a.zst"%string := FRAME_HEADER ++ payload 11 1 8 ++ [xaa; xbb] ]})
          (ticks 12)) !! file_path sample_env = Some d'
    /\ take 8 d' = FRAME_HEADER
    /\ drop 32 (FRAME_HEADER ++ payload 11 1 8 ++ [xaa; xbb]) `prefix_of` drop 32 d'
    /\ (length (FRAME_HEADER ++ payload 11 1 8 ++ [xaa; xbb]) <= length d')%nat.
Proof.
  refine (session_extends_archive sample_env
    (initial {[ "a.zst"%string := FRAME_HEADER ++ payload 11 1 8 ++ [xaa; xbb] ]})
    (ticks 12) (FRAME_HEADER ++ payload 11 1 8 ++ [xaa; xbb]) _ _ _).
  - reflexivity.
  - reflexivity.
  - vm_compute. lia.
Defined.

(** X12: a session that has exited did so with code 0 and outside the
    critical section, whatever the schedule of ticks and signals. *)
Theorem session_exit_code (E : env) (fs0 : filesystem) (evs : list event) (code : Z) :
  st (on_ready E fs0 evs) = Exited code ->
  code = 0 /\ in_critical_section (on_ready E fs0 evs) = false.
Proof.
  intros Hexit. pose proof (flag_inv_run E fs0 evs) as Hinv.
  unfold flag_inv in Hinv. unfold on_ready in *. now rewrite Hexit in Hinv.
Qed.

Lemma session_exit_code_witness :
  0 = 0 /\ in_critical_section (on_ready sample_env ∅ [Tick; Tick; Signal]) = false.
Proof.
  refine (session_exit_code sample_env ∅ [Tick; Tick; Signal] 0 _).
  vm_compute. reflexivity.
Defined.

(** ** Count and size, whatever the history source returns *)

Lemma len_nonneg {A} (l : list A) : 0 <= len l.
Proof. unfold len. lia. Qed.

Lemma tally_le_refl (path : string) (fs1 : filesystem) : tally_le path fs1 fs1.
Proof. intros l c b H. exists l, c, b. split; [assumption|lia]. Qed.

Lemma tally_le_trans (path : string) (fs1 fs2 fs3 : filesystem) :
  tally_le path fs1 fs2 -> tally_le path fs2 fs3 -> tally_le path fs1 fs3.
Proof.
  intros H12 H23 l c b H.
  destruct (H12 l c b H) as (l2 & c2 & b2 & H2 & Hc & Hb).
  destruct (H23 l2 c2 b2 H2) as (l3 & c3 & b3 & H3 & Hc' & Hb').
  exists l3, c3, b3. split; [assumption|lia].
Qed.

Lemma tally_inv_step (E : env) (s : state) (ev : event) :
  tally_inv E s -> tally_inv E (step E s ev).
Proof.
  intros Hinv. unfold step.
  destruct (st s) as [p| |] eqn:Hp; [|assumption..].
  destruct ev.
  - unfold tally_inv in Hinv. rewrite Hp in Hinv.
    destruct p; cbn [exec_pc].
    + destruct (exists_ (file_path E) (fs s)); [exact I|].
      unfold perform.
      destruct (initialize_metadata (file_path E) (fs s)) as [fs' [u|e]]; exact I.
    + unfold perform. rewrite read_metadata_counters.
      destruct (counters (file_path E) (fs s)) as [v|e] eqn:Hc; [|exact I].
      destruct v as [|l [|c [|b [|? ?]]]]; try exact I.
      unfold tally_inv, new_data. cbn. rewrite Hc. do 3 f_equal.
      destruct (Z.eqb_spec l 0); cbn; congruence.
    + destruct (len _ =? 0); exact Hinv.
    + destruct (last (messages s)) as [m|] eqn:Hm; [|exact I].
      unfold tally_inv. cbn. unfold new_data in Hinv.
      eexists _, _, _. split; [exact Hinv|].
      pose proof (len_nonneg (messages s)).
      pose proof (len_nonneg (format_messages [] (messages s))). lia.
    + exact Hinv.
    + unfold perform.
      destruct (overwrite_metadata (file_path E) (new_data s) (fs s))
        as [fs' [u|e]] eqn:Hov; [|exact I].
      unfold tally_inv. cbn. now apply counters_after_overwrite in Hov.
    + unfold perform.
      destruct (append_batch E (file_path E) (formatted_log s) (fs s))
        as [fs' r] eqn:Hap.
      pose proof (counters_after_append E _ _ _ _ _ _ Hinv Hap) as Hc.
      destruct r; [|exact I]. exact Hc.
    + exact Hinv.
    + destruct (shutdown_event s); [exact I|].
      destruct (len (messages s) <? batch E); exact Hinv.
    + exact I.
  - unfold handle_signal. destruct (in_critical_section s); [|exact I].
    exact Hinv.
Qed.

Lemma tally_le_step (E : env) (s : state) (ev : event) :
  tally_inv E s -> tally_le (file_path E) (fs s) (fs (step E s ev)).
Proof.
  intros Hinv.
  destruct (fs_step_cases E s ev) as [H|[(_ & _ & Hnone)|[(Hp & H)|(_ & H)]]].
  - rewrite H. apply tally_le_refl.
  - intros l c b Hc. apply counters_ok_inv in Hc as (d & Hd & _).
    rewrite Hnone in Hd. discriminate.
  - rewrite H. unfold tally_inv in Hinv. rewrite Hp in Hinv.
    destruct Hinv as (l & c & b & Hc & Hcount & Hsize).
    destruct (overwrite_metadata (file_path E) (new_data s) (fs s))
      as [fs' [u|e]] eqn:Hov; cbn [fst].
    + apply counters_after_overwrite in Hov.
      intros l0 c0 b0 Hc0. rewrite Hc in Hc0. injection Hc0 as <- <- <-.
      eexists _, _, _. split; [exact Hov|]. lia.
    + apply overwrite_metadata_raise in Hov. subst fs'. apply tally_le_refl.
  - rewrite H. intros l c b Hc.
    exists l, c, b. split; [|lia]. now apply append_batch_keeps_counters_aux.
Qed.

Lemma tally_run (E : env) (s : state) (evs : list event) :
  tally_inv E s ->
  tally_inv E (run E s evs) /\ tally_le (file_path E) (fs s) (fs (run E s evs)).
Proof.
  intros Hinv. induction evs as [|ev evs [IH1 IH2]] using rev_ind.
  - split; [assumption|apply tally_le_refl].
  - rewrite run_app. split.
    + now apply tally_inv_step.
    + eapply tally_le_trans; [exact IH2|]. now apply tally_le_step.
Qed.

(** X13: with no assumption on what the history source returns, the
    message count and the uncompressed size stored in the archive never
    decrease between two points of a session, under any schedule of ticks
    and signals. *)
Theorem count_and_size_never_decrease (E : env) (fs0 : filesystem)
    (evs1 evs2 : list event) (l c b : Z) :
  counters (file_path E) (fs (on_ready E fs0 evs1)) = Ok [l; c; b] ->
  exists l' c' b',
    counters (file_path E) (fs (run E (on_ready E fs0 evs1) evs2)) = Ok [l'; c'; b']
    /\ c <= c' /\ b <= b'.
Proof.
  unfold on_ready.
  destruct (tally_run E (initial fs0) evs1 I) as [Hinv _].
  destruct (tally_run E (run E (initial fs0) evs1) evs2 Hinv) as [_ Hle].
  apply Hle.
Qed.

Lemma count_and_size_never_decrease_witness :
  exists l' c' b',
    counters (file_path sample_env)
      (fs (run sample_env (on_ready sample_env ∅ (ticks 2)) (ticks 5)))
    = Ok [l'; c'; b'] /\ 0 <= c' /\ 0 <= b'.
Proof.
  refine (count_and_size_never_decrease sample_env ∅ (ticks 2) (ticks 5) 0 0 0 _).
  vm_compute. reflexivity.
Defined.

(** ** A pending shutdown request *)

Lemma shutdown_tick (E : env) (s : state) :
  shutdown_event (step E s Tick) = shutdown_event s.
Proof.
  unfold step. destruct (st s) as [p| |]; [|reflexivity..].
  destruct p; cbn [exec_pc]; unfold perform; repeat case_match; cbn;
    congruence.
Qed.

Ltac st_simpl :=
  unfold goto, halt, set_fs, set_counters, set_batch, set_log, set_critical,
    set_shutdown; cbn [st fs shutdown_event in_critical_section negb].

Lemma tick_target (E : env) (s : state) (p p' : pc) :
  st s = Running p -> st (step E s Tick) = Running p' ->
  match p with
  | PInit => p' = PLoad
  | PLoad => p' = PFetch
  | PFetch => p' = PFinish \/ p' = PFormat
  | PFormat => p' = PEnter
  | PEnter => p' = POverwrite
  | POverwrite => p' = PAppend
  | PAppend => p' = PLeave
  | PLeave => p' = PCheck
  | PCheck => (p' = PFinish \/ p' = PFetch) /\ shutdown_event s = false
  | PFinish => False
  end.
Proof.
  intros Hp. rewrite (step_tick E s p Hp).
  destruct p; cbn [exec_pc]; unfold perform.
  - destruct (exists_ (file_path E) (fs s)); st_simpl; [congruence|].
    destruct (initialize_metadata (file_path E) (fs s)) as [fs' [u|e]]; st_simpl; congruence.
  - destruct (read_metadata (file_path E) (fs s)) as [fs' [v|e]]; st_simpl; [|congruence].
    destruct v as [|l [|c [|b [|? ?]]]]; st_simpl; congruence.
  - destruct (len _ =? 0); st_simpl; intros [= <-]; auto.
  - destruct (last (messages s)); st_simpl; congruence.
  - st_simpl. congruence.
  - destruct (overwrite_metadata (file_path E) (new_data s) (fs s))
      as [fs' [u|e]]; st_simpl; congruence.
  - destruct (append_batch E (file_path E) (formatted_log s) (fs s))
      as [fs' [u|e]]; st_simpl; congruence.
  - st_simpl. congruence.
  - destruct (shutdown_event s); st_simpl; [congruence|].
    destruct (len (messages s) <? batch E); st_simpl; intros [= <-]; auto.
  - st_simpl. congruence.
Qed.

Lemma pending_inv_step (E : env) (s : state) (ev : event) :
  flag_inv s -> pending_inv s -> pending_inv (step E s ev).
Proof.
  intros Hflag Hpend. unfold pending_inv.
  destruct (st (step E s ev)) as [p'| |] eqn:Hp'; [|exact I..].
  intros Hs.
  destruct (st s) as [p| |] eqn:Hp;
    [|rewrite step_stopped in Hp' by (intros q; rewrite Hp; discriminate);
      congruence..].
  unfold pending_inv in Hpend. rewrite Hp in Hpend.
  unfold flag_inv in Hflag. rewrite Hp in Hflag.
  destruct ev.
  - rewrite shutdown_tick in Hs.
    pose proof (tick_target E s p p' Hp Hp') as Ht.
    destruct (Hpend Hs) as [Hc| ->].
    + destruct p; try discriminate Hc; subst p'; auto.
    + destruct Ht as [_ Ht]. congruence.
  - unfold step, handle_signal in Hp'. rewrite Hp in Hp'.
    destruct (in_critical_section s) eqn:Hcs; cbn in Hp'; [|discriminate Hp'].
    left. congruence.
Qed.

Lemma pending_inv_run (E : env) (fs0 : filesystem) (evs : list event) :
  pending_inv (run E (initial fs0) evs).
Proof.
  induction evs as [|ev evs IH] using rev_ind.
  - cbn. discriminate.
  - rewrite run_app. apply pending_inv_step; [apply flag_inv_run|exact IH].
Qed.

Lemma run_stopped (E : env) (s : state) (evs : list event) :
  (forall p, st s <> Running p) -> run E s evs = s.
Proof.
  intros H. induction evs as [|ev evs IH] using rev_ind; [reflexivity|].
  rewrite run_app, IH. cbn. now apply step_stopped.
Qed.

Lemma run_ticks_cons (E : env) (s : state) (n : nat) :
  run E s (ticks (S n)) = run E (step E s Tick) (ticks n).
Proof. reflexivity. Qed.

Lemma pending_drains (E : env) (n : nat) (s : state) (p : pc) :
  st s = Running p -> shutdown_event s = true ->
  (match p with
   | POverwrite => 4 | PAppend => 3 | PLeave => 2 | PCheck => 1 | _ => S n
   end <= n)%nat ->
  st (run E s (ticks n)) = Exited 0 \/ exists e, st (run E s (ticks n)) = Raised e.
Proof.
  revert s p. induction n as [|n IH]; intros s p Hp Hs Hn.
  - destruct p; lia.
  - rewrite run_ticks_cons.
    destruct (st (step E s Tick)) as [p'|c|e] eqn:Hp'.
    + pose proof (tick_target E s p p' Hp Hp') as Ht.
      apply (IH _ p' Hp'); [now rewrite shutdown_tick|].
      destruct p; try lia; try (subst p'; lia).
      destruct Ht as [_ Ht]. congruence.
    + rewrite run_stopped by (intros q; rewrite Hp'; discriminate).
      left. rewrite Hp'. f_equal.
      rewrite (step_tick E s p Hp) in Hp'.
      destruct p; try lia; cbn [exec_pc] in Hp'; unfold perform in Hp'.
      * destruct (overwrite_metadata (file_path E) (new_data s) (fs s))
          as [fs' [u|e]]; discriminate Hp'.
      * destruct (append_batch E (file_path E) (formatted_log s) (fs s))
          as [fs' [u|e]]; discriminate Hp'.
      * discriminate Hp'.
      * rewrite Hs in Hp'. now injection Hp'.
    + rewrite run_stopped by (intros q; rewrite Hp'; discriminate).
      right. now exists e.
Qed.

(** X14: once [shutdown_event] is set the session fetches no more: the
    session is then inside a commit or at the check that follows it, and
    from there at most four ticks, with no further signal, end it, with
    exit code 0 unless the overwrite or the append raises. *)
Theorem pending_shutdown_ends_session (E : env) (fs0 : filesystem)
    (evs : list event) (p : pc) :
  let s := on_ready E fs0 evs in
  shutdown_event s = true -> st s = Running p ->
  (critical_pc p = true \/ p = PCheck)
  /\ (st (run E s (ticks 4)) = Exited 0
      \/ exists e, st (run E s (ticks 4)) = Raised e).
Proof.
  intros s Hs Hp. unfold on_ready in s.
  pose proof (pending_inv_run E fs0 evs) as Hpend. fold s in Hpend.
  unfold pending_inv in Hpend. rewrite Hp in Hpend.
  split; [now apply Hpend|].
  apply (pending_drains E 4 s p Hp Hs).
  destruct (Hpend Hs) as [Hc| ->]; [|lia].
  destruct p; try discriminate Hc; lia.
Qed.

Lemma pending_shutdown_ends_session_witness :
  (critical_pc PAppend = true \/ PAppend = PCheck)
  /\ (st (run sample_env (on_ready sample_env ∅ (ticks 5 ++ [Signal; Tick])) (ticks 4))
      = Exited 0
      \/ exists e,
        st (run sample_env (on_ready sample_env ∅ (ticks 5 ++ [Signal; Tick])) (ticks 4))
        = Raised e).
Proof.
  refine (pending_shutdown_ends_session sample_env ∅ (ticks 5 ++ [Signal; Tick])
            PAppend _ _).
  - vm_compute. reflexivity.
  - vm_compute. reflexivity.
Defined.

(** ** Starting a session *)

(** X15: a session started on an archive whose counters read (l, c, b)
    loads them without writing anything: after two ticks it is about to
    fetch, with [l] as cursor ([None] when [l] is 0), [c] and [b] as
    totals, and its first request asks the history for the messages after
    that cursor. *)
Theorem session_resumes_from_counters (E : env) (fs0 : filesystem) (l c b : Z) :
  counters (file_path E) fs0 = Ok [l; c; b] ->
  on_ready E fs0 (ticks 2)
  = State fs0 (Running PFetch) (if l =? 0 then None else Some l) c b [] []
          false false 0
  /\ messages (on_ready E fs0 (ticks 3))
     = history E 0 (batch E) (if l =? 0 then None else Some l).
Proof.
  intros Hc. unfold on_ready.
  destruct (counters_ok_inv _ _ _ Hc) as (d & Hd & _).
  assert (H2 : run E (initial fs0) (ticks 2)
               = State fs0 (Running PFetch) (if l =? 0 then None else Some l) c b
                       [] [] false false 0).
  { cbn. rewrite (exists_lookup fs0 (file_path E) d Hd). cbn.
    unfold perform. cbn. rewrite read_metadata_counters, Hc. reflexivity. }
  split; [exact H2|].
  rewrite run_ticks_S, H2. cbn.
  destruct (len _ =? 0); reflexivity.
Qed.

Lemma session_resumes_from_counters_witness :
  on_ready sample_env sample_archive (ticks 2)
  = State sample_archive (Running PFetch) (if 13 =? 0 then None else Some 13) 3 15
          [] [] false false 0
  /\ messages (on_ready sample_env sample_archive (ticks 3))
     = history sample_env 0 (batch sample_env) (if 13 =? 0 then None else Some 13).
Proof.
  refine (session_resumes_from_counters sample_env sample_archive 13 3 15 _).
  vm_compute. reflexivity.
Defined.



Lemma foreign_step (E : env) (fs0 : filesystem) (d : bytes) (e : exn)
    (s : state) (ev : event) :
  fs0 !! file_path E = Some d -> counters (file_path E) fs0 = Raise e ->
  fs s = fs0 /\ (st s = Running PInit \/ st s = Running PLoad
                 \/ st s = Raised e \/ st s = Exited 0) ->
  fs (step E s ev) = fs0
  /\ (st (step E s ev) = Running PInit \/ st (step E s ev) = Running PLoad
      \/ st (step E s ev) = Raised e \/ st (step E s ev) = Exited 0).
Proof.
  intros Hd Hc [Hfs Hst]. unfold step.
  destruct Hst as [Hp|[Hp|[Hp|Hp]]]; rewrite Hp; try (split; [assumption|auto]).
  - destruct ev.
    + cbn [exec_pc]. rewrite Hfs, (exists_lookup fs0 (file_path E) d Hd).
      st_simpl. auto.
    + unfold handle_signal. destruct (in_critical_section s); st_simpl; auto.
  - destruct ev.
    + cbn [exec_pc]. unfold perform. rewrite Hfs, read_metadata_counters, Hc.
      st_simpl. auto.
    + unfold handle_signal. destruct (in_critical_section s); st_simpl; auto.
Qed.

(** X17: a file at the archive's path that [read_metadata] rejects is
    fatal to the session and is never modified: under every schedule of
    ticks and signals the file system stays as it was, and after two
    ticks the session has ended with the exception that [read_metadata]
    raised. *)
Theorem session_rejects_foreign_file (E : env) (fs0 : filesystem) (d : bytes)
    (e : exn) (evs : list event) :
  fs0 !! file_path E = Some d -> counters (file_path E) fs0 = Raise e ->
  fs (on_ready E fs0 evs) = fs0
  /\ st (on_ready E fs0 (ticks 2)) = Raised e.
Proof.
  intros Hd Hc. unfold on_ready. split.
  - assert (H : fs (run E (initial fs0) evs) = fs0
                /\ (st (run E (initial fs0) evs) = Running PInit
                    \/ st (run E (initial fs0) evs) = Running PLoad
                    \/ st (run E (initial fs0) evs) = Raised e
                    \/ st (run E (initial fs0) evs) = Exited 0)).
    { induction evs as [|ev evs IH] using rev_ind.
      - split; [reflexivity|now left].
      - rewrite run_app. now apply (foreign_step E fs0 d e). }
    apply H.
  - cbn. rewrite (exists_lookup fs0 (file_path E) d Hd). cbn.
    unfold perform. cbn. rewrite read_metadata_counters, Hc. reflexivity.
Qed.

Lemma session_rejects_foreign_file_witness :
  fs (on_ready sample_env {[ "a.zst"%string := [x01; x02] ]} [Tick; Signal; Tick])
  = {[ "a.zst"%string := [x01; x02] ]}
  /\ st (on_ready sample_env {[ "a.zst"%string := [x01; x02] ]} (ticks 2))
     = Raised bad_magic.
Proof.
  refine (session_rejects_foreign_file sample_env {[ "a.zst"%string := [x01; x02] ]}
            [x01; x02] bad_magic [Tick; Signal; Tick] _ _).
  - reflexivity.
  - vm_compute. reflexivity.
Defined.

(** ** The end of an iteration *)

Lemma iteration_to_append (E : env) (fs1 : filesystem) (l : option Z) (c b : Z)
    (ms0 : list message) (log0 : str) (cs sh : bool) (n : nat) (d : bytes)
    (ms : list message) (m : message) :
  history E n (batch E) l = ms -> last ms = Some m ->
  fs1 !! file_path E = Some d -> take 8 d = FRAME_HEADER ->
  u64 (id m) -> u64 (c + len ms) -> u64 (b + len (format_messages [] ms)) ->
  run E (State fs1 (Running PFetch) l c b ms0 log0 cs sh n) (ticks 4)
  = State (<[file_path E := FRAME_HEADER
               ++ payload (id m) (c + len ms) (b + len (format_messages [] ms))
               ++ drop 32 d]> fs1)
          (Running PAppend) (Some (id m)) (c + len ms)
          (b + len (format_messages [] ms)) ms (format_messages [] ms) true sh (S n).
Proof.
  intros Hms Hlast Hd Hh Hl Hc Hb.
  pose proof (len_nonempty ms (last_nonempty ms m Hlast)) as Hlen.
  assert (H1 : run E (State fs1 (Running PFetch) l c b ms0 log0 cs sh n) (ticks 1)
               = State fs1 (Running PFormat) l c b ms log0 cs sh (S n)).
  { cbn. rewrite Hms, Hlen. reflexivity. }
  assert (H2 : run E (State fs1 (Running PFetch) l c b ms0 log0 cs sh n) (ticks 2)
               = State fs1 (Running PEnter) (Some (id m)) (c + len ms)
                       (b + len (format_messages [] ms)) ms (format_messages [] ms)
                       cs sh (S n)).
  { rewrite run_ticks_S, H1. cbn. rewrite Hlast. reflexivity. }
  assert (H3 : run E (State fs1 (Running PFetch) l c b ms0 log0 cs sh n) (ticks 3)
               = State fs1 (Running POverwrite) (Some (id m)) (c + len ms)
                       (b + len (format_messages [] ms)) ms (format_messages [] ms)
                       true sh (S n)).
  { rewrite run_ticks_S, H2. reflexivity. }
  rewrite run_ticks_S, H3. cbn. unfold perform, new_data. cbn.
  rewrite (overwrite_metadata_accepts fs1 (file_path E) d) by assumption.
  reflexivity.
Qed.

(** X18: after the commit of a non-empty batch the locals hold what the
    archive holds: the cursor is the id of the batch's last message and
    [read_metadata] returns the new counters.  The session then exits
    with code 0 when a shutdown was requested, goes to its end when the
    batch was shorter than [args.batch], and otherwise makes its next
    request, the one numbered one higher, with the new cursor. *)
Theorem iteration_outcome (E : env) (s : state) (d : bytes) (ms : list message)
    (m : message) :
  st s = Running PFetch ->
  history E (requests s) (batch E) (last_read_message s) = ms ->
  last ms = Some m ->
  fs s !! file_path E = Some d -> take 8 d = FRAME_HEADER ->
  u64 (id m) -> u64 (total_messages_read s + len ms) ->
  u64 (uncompressed_size s + len (format_messages [] ms)) ->
  encodable (format_messages [] ms) ->
  let s7 := run E s (ticks 7) in
  st s7 = (if shutdown_event s then Exited 0
           else if len ms <? batch E then Running PFinish else Running PFetch)
  /\ last_read_message s7 = Some (id m)
  /\ total_messages_read s7 = total_messages_read s + len ms
  /\ uncompressed_size s7 = uncompressed_size s + len (format_messages [] ms)
  /\ requests s7 = S (requests s)
  /\ in_critical_section s7 = false
  /\ counters (file_path E) (fs s7)
     = Ok [id m; total_messages_read s + len ms;
           uncompressed_size s + len (format_messages [] ms)].
Proof.
  intros Hst Hms Hlast Hd Hh Hl Hc Hb Henc s7.
  destruct s as [fs1 st0 l c b ms0 log0 cs sh n].
  cbn in Hst, Hms, Hd, Hc, Hb. subst st0 s7.
  cbn [st fs last_read_message total_messages_read uncompressed_size messages
       formatted_log in_critical_section shutdown_event requests].
  change (ticks 7) with (ticks 4 ++ ticks 3). rewrite run_app.
  rewrite (iteration_to_append E fs1 l c b ms0 log0 cs sh n d ms m) by assumption.
  set (fs2 := <[file_path E := _]> fs1).
  assert (Hap : append_batch E (file_path E) (format_messages [] ms) fs2
                = (<[file_path E := (FRAME_HEADER
                      ++ payload (id m) (c + len ms) (b + len (format_messages [] ms))
                      ++ drop 32 d) ++ compress E (utf8 (format_messages [] ms))]> fs2,
                   Ok tt)).
  { rewrite (append_batch_existing E fs2 (file_path E)
               (FRAME_HEADER ++ payload (id m) (c + len ms)
                  (b + len (format_messages [] ms)) ++ drop 32 d))
      by apply fs_lookup_insert_eq.
    unfold encode_utf8. rewrite Henc. reflexivity. }
  assert (Hcnt : counters (file_path E)
            (<[file_path E := (FRAME_HEADER
                 ++ payload (id m) (c + len ms) (b + len (format_messages [] ms))
                 ++ drop 32 d) ++ compress E (utf8 (format_messages [] ms))]> fs2)
          = Ok [id m; c + len ms; b + len (format_messages [] ms)]).
  { apply (counters_frame _ (file_path E) _ _ _
             (drop 32 d ++ compress E (utf8 (format_messages [] ms))));
      try assumption.
    rewrite fs_lookup_insert_eq. now rewrite <- !app_assoc. }
  cbn. unfold perform. cbn. rewrite Hap. cbn.
  destruct sh; cbn; [now repeat split|].
  destruct (len ms <? batch E); cbn; now repeat split.
Qed.

Lemma iteration_outcome_witness :
  let s7 := run sample_env (on_ready sample_env ∅ (ticks 2)) (ticks 7) in
  st s7 = (if shutdown_event (on_ready sample_env ∅ (ticks 2)) then Exited 0
           else if len sample_messages <? batch sample_env
                then Running PFinish else Running PFetch)
  /\ last_read_message s7 = Some (id (Message 13 [99] [233])).
Proof.
  cbv zeta.
  pose proof (iteration_outcome sample_env (on_ready sample_env ∅ (ticks 2))
    (FRAME_HEADER ++ payload 0 0 0) sample_messages (Message 13 [99] [233])) as H.
  cbv zeta in H.
  refine ((fun H' => conj (proj1 H') (proj1 (proj2 H'))) (H _ _ _ _ _ _ _ _ _)).
  - reflexivity.
  - reflexivity.
  - reflexivity.
  - reflexivity.
  - reflexivity.
  - unfold u64. cbn. lia.
  - unfold u64. vm_compute. split; [intros H0; discriminate H0|reflexivity].
  - unfold u64. vm_compute. split; [intros H0; discriminate H0|reflexivity].
  - reflexivity.
Defined.

(** X19: a transcript that cannot be encoded (it holds a surrogate code
    point) ends the session with [UnicodeEncodeError] at the append, after
    the overwrite: the archive then has the new counters, while its batch
    region is what it was before the batch. *)
Theorem unencodable_transcript_loses_batch (E : env) (s : state) (d : bytes)
    (ms : list message) (m : message) :
  st s = Running PFetch ->
  history E (requests s) (batch E) (last_read_message s) = ms ->
  last ms = Some m ->
  fs s !! file_path E = Some d -> take 8 d = FRAME_HEADER ->
  u64 (id m) -> u64 (total_messages_read s + len ms) ->
  u64 (uncompressed_size s + len (format_messages [] ms)) ->
  ~ encodable (format_messages [] ms) ->
  let s5 := run E s (ticks 5) in
  st s5 = Raised UnicodeEncodeError
  /\ fs s5 !! file_path E
     = Some (FRAME_HEADER
             ++ payload (id m) (total_messages_read s + len ms)
                  (uncompressed_size s + len (format_messages [] ms))
             ++ drop 32 d)
  /\ counters (file_path E) (fs s5)
     = Ok [id m; total_messages_read s + len ms;
           uncompressed_size s + len (format_messages [] ms)].
Proof.
  intros Hst Hms Hlast Hd Hh Hl Hc Hb Henc s5.
  destruct s as [fs1 st0 l c b ms0 log0 cs sh n].
  cbn in Hst, Hms, Hd, Hc, Hb. subst st0 s5.
  cbn [st fs last_read_message total_messages_read uncompressed_size messages
       formatted_log in_critical_section shutdown_event requests].
  rewrite run_ticks_S.
  rewrite (iteration_to_append E fs1 l c b ms0 log0 cs sh n d ms m) by assumption.
  set (fs2 := <[file_path E := _]> fs1).
  assert (He : encode_utf8 (format_messages [] ms) = Raise UnicodeEncodeError).
  { unfold encode_utf8, encodable in *.
    now destruct (existsb is_surrogate (format_messages [] ms)). }
  assert (Hap : append_batch E (file_path E) (format_messages [] ms) fs2
                = (fs2, Raise UnicodeEncodeError)).
  { rewrite (append_batch_existing E fs2 (file_path E)
               (FRAME_HEADER ++ payload (id m) (c + len ms)
                  (b + len (format_messages [] ms)) ++ drop 32 d))
      by apply fs_lookup_insert_eq.
    now rewrite He. }
  cbn. unfold perform. cbn. rewrite Hap. cbn.
  split; [reflexivity|]. split; [apply fs_lookup_insert_eq|].
  apply (counters_frame _ (file_path E) _ _ _ (drop 32 d)); try assumption.
  apply fs_lookup_insert_eq.
Qed.

Lemma unencodable_transcript_loses_batch_witness :
  let s5 := run surrogate_env (on_ready surrogate_env ∅ (ticks 2)) (ticks 5) in
  st s5 = Raised UnicodeEncodeError
  /\ counters (file_path surrogate_env) (fs s5) = Ok [5; 0 + 1; 0 + 8].
Proof.
  cbv zeta.
  pose proof (unencodable_transcript_loses_batch surrogate_env
    (on_ready surrogate_env ∅ (ticks 2)) (FRAME_HEADER ++ payload 0 0 0)
    [Message 5 [97] [104; 0xD800]] (Message 5 [97] [104; 0xD800])) as H.
  cbv zeta in H.
  refine ((fun H' => conj (proj1 H') (proj2 (proj2 H'))) (H _ _ _ _ _ _ _ _ _)).
  - reflexivity.
  - reflexivity.
  - reflexivity.
  - reflexivity.
  - reflexivity.
  - unfold u64. cbn. lia.
  - unfold u64. vm_compute. split; [intros H0; discriminate H0|reflexivity].
  - unfold u64. vm_compute. split; [intros H0; discriminate H0|reflexivity].
  - unfold encodable. vm_compute. discriminate.
Defined.

(** ** From login to the archive's path *)

(** X20: whatever the events, the process started by [on_ready] exits
    with code 1 exactly when the channel is not found, and then no file has
    been touched; every other exit has code 0; and no file other than the
    one [get_file_path] names for the channel is ever changed. *)
Theorem login_exit_and_files (cl : client) (args : arguments) (fs0 : filesystem)
    (evs : list event) (other : string) :
  let s := on_ready_from_login cl args fs0 evs in
  (forall code, st s = Exited code ->
     (code = 1 <-> get_channel cl (args_channel args) = None)
     /\ (code = 1 \/ code = 0))
  /\ (get_channel cl (args_channel args) = None -> st s = Exited 1 /\ fs s = fs0)
  /\ ((forall ch, get_channel cl (args_channel args) = Some ch ->
         other <> get_file_path args (channel_name ch)) ->
      fs s !! other = fs0 !! other).
Proof.
  intros s. subst s. unfold on_ready_from_login.
  destruct (get_channel cl (args_channel args)) as [ch|] eqn:Hch.
  - split; [|split].
    + intros code Hexit.
      pose proof (flag_inv_run (session_env cl args ch) fs0 evs) as Hinv.
      unfold flag_inv in Hinv. unfold on_ready in Hexit. rewrite Hexit in Hinv.
      destruct Hinv as [-> _]. split; [|now right].
      split; [lia|discriminate].
    + discriminate.
    + intros Hne. unfold on_ready.
      rewrite (run_other_path (session_env cl args ch) (initial fs0) evs other);
        [reflexivity|].
      now apply Hne.
  - split; [|split].
    + cbn. intros code [= <-]. split; [|now left]. now split.
    + intros _. now split.
    + reflexivity.
Qed.

Lemma login_exit_and_files_witness :
  st (on_ready_from_login sample_client (Args 8 None 100) ∅ (ticks 3)) = Exited 1
  /\ fs (on_ready_from_login sample_client (Args 8 None 100) ∅ (ticks 3)) = ∅.
Proof.
  refine (proj1 (proj2 (login_exit_and_files sample_client (Args 8 None 100) ∅
                          (ticks 3) "b.zst")) _).
  reflexivity.
Defined.

(** ** The size counter on plain text *)

Lemma utf8_char_length (c : Z) : (1 <= length (utf8_char c) <= 4)%nat.
Proof.
  unfold utf8_char.
  destruct (c <? 128); [cbn; lia|].
  destruct (c <? 2048); [cbn; lia|].
  destruct (c <? 65536); cbn; lia.
Qed.

Lemma utf8_length_bounds (t : str) :
  (length t <= length (utf8 t) <= 4 * length t)%nat.
Proof.
  induction t as [|c t IH]; [cbn; lia|].
  unfold utf8 in *. cbn [map concat length]. rewrite length_app.
  pose proof (utf8_char_length c). lia.
Qed.

Lemma utf8_ascii (t : str) :
  ascii_only t -> length (utf8 t) = length t /\ encodable t.
Proof.
  unfold ascii_only, encodable. induction 1 as [|c t Hc _ [IH1 IH2]]; [now split|].
  unfold utf8 in *. cbn [map concat length existsb]. rewrite length_app, IH1, IH2.
  unfold utf8_char, is_surrogate.
  destruct (Z.ltb_spec c 128); [|lia].
  destruct (Z.leb_spec 55296 c); [lia|]. now split.
Qed.

Lemma ascii_only_lines (ms : list message) :
  Forall (fun m => ascii_only (author_display_name m) /\ ascii_only (content m)) ms ->
  ascii_only (concat (map format_line ms)).
Proof.
  unfold ascii_only. induction 1 as [|m ms [Ha Hc] _ IH]; [constructor|].
  cbn [map concat]. apply Forall_app. split; [|assumption].
  unfold format_line. rewrite !Forall_app. repeat split; try assumption;
    repeat constructor; lia.
Qed.

(** X21: the amount added to [uncompressed_size] for a batch is never
    more than the number of bytes of the encoded transcript and never less
    than a quarter of it; when the names and bodies of the messages that
    are written hold only code points below 0x80 it is exactly that
    number of bytes. *)
Theorem size_counter_and_bytes (E : env) (s : state) :
  messages s <> [] ->
  let s' := exec_pc E PFormat s in
  let added := uncompressed_size s' - uncompressed_size s in
  let written := len (utf8 (formatted_log s')) in
  added <= written <= 4 * added
  /\ (Forall (fun m => ascii_only (author_display_name m) /\ ascii_only (content m))
        (filter (fun m => content m <> []) (messages s)) ->
      encode_utf8 (formatted_log s') = Ok (utf8 (formatted_log s'))
      /\ added = written).
Proof.
  intros Hne s' added written.
  assert (Hlog : formatted_log s' = format_messages [] (messages s)).
  { subst s'. unfold exec_pc. destruct (last (messages s)); reflexivity. }
  assert (Hadd : added = len (formatted_log s')).
  { subst added s'. rewrite Hlog, (uncompressed_size_step E s Hne). lia. }
  pose proof (utf8_length_bounds (formatted_log s')) as Hb.
  split; [subst written; rewrite Hadd; unfold len; lia|].
  intros Hascii. apply ascii_only_lines in Hascii.
  rewrite <- (app_nil_l (concat _)), <- format_messages_acc, <- Hlog in Hascii.
  destruct (utf8_ascii _ Hascii) as [Hlen Henc].
  split.
  - unfold encode_utf8. now rewrite Henc.
  - subst written. rewrite Hadd. unfold len. now rewrite Hlen.
Qed.

Lemma size_counter_and_bytes_witness :
  let s := run sample_env (initial ∅) (ticks 3) in
  let s' := exec_pc sample_env PFormat s in
  uncompressed_size s' - uncompressed_size s <= len (utf8 (formatted_log s'))
  <= 4 * (uncompressed_size s' - uncompressed_size s).
Proof.
  cbv zeta.
  refine (proj1 (size_counter_and_bytes sample_env
                   (run sample_env (initial ∅) (ticks 3)) _)).
  vm_compute. discriminate.
Defined.

(** ** Locals and archive at a fetch *)

(** X22: whenever a session is about to fetch, or has reached its end
    after the loop, the archive holds exactly the session's cursor (0 for
    [None]), message count and size: a session restarted at that point
    would make the same request.  This needs no assumption on the history
    source and holds under every schedule of ticks and signals. *)
Theorem archive_in_sync_at_fetch (E : env) (fs0 : filesystem) (evs : list event) :
  let s := on_ready E fs0 evs in
  st s = Running PFetch \/ st s = Running PFinish ->
  read_metadata (file_path E) (fs s)
  = (fs s, Ok [default 0 (last_read_message s); total_messages_read s;
               uncompressed_size s]).
Proof.
  intros s Hst. unfold on_ready in s.
  destruct (tally_run E (initial fs0) evs I) as [Hinv _]. fold s in Hinv.
  rewrite read_metadata_counters. f_equal.
  unfold tally_inv in Hinv. destruct Hst as [Hst|Hst]; rewrite Hst in Hinv; exact Hinv.
Qed.

Lemma archive_in_sync_at_fetch_witness :
  read_metadata (file_path sample_env) (fs (on_ready sample_env sample_archive (ticks 2)))
  = (fs (on_ready sample_env sample_archive (ticks 2)),
     Ok [default 0 (last_read_message (on_ready sample_env sample_archive (ticks 2)));
         total_messages_read (on_ready sample_env sample_archive (ticks 2));
         uncompressed_size (on_ready sample_env sample_archive (ticks 2))]).
Proof.
  refine (archive_in_sync_at_fetch sample_env sample_archive (ticks 2) _).
  left. vm_compute. reflexivity.
Defined.
